(** * The dinosaur infographic: a shallow embedding of [app.js]

    The development follows the source file from top to bottom: the
    JavaScript built-ins the program relies on (objects with own and
    inherited properties, [Math.round], [Number.prototype.toFixed],
    exceptions, [Math.random]), then the three constructors, the three
    comparison methods, the tile generator and the grid assembly.

    Numbers.  The weights and heights are JavaScript numbers, that is
    IEEE 754 doubles: they are Rocq's primitive floats, whose
    operations are specified by [SpecFloat].  [Math.round] and
    [toFixed] are defined by ECMA-262 on the mathematical value of a
    double, which is an exact rational here.  The conversion of a
    number to a string ([Number::toString], used by a template literal)
    is not computed: it is a parameter of the development,
    [Number_toString].

    Randomness.  [Math.random] is an oracle: the [n]-th call returns
    [random n], a real number taken as a rational, and the number of
    calls made so far is part of the state.

    Objects.  The constructors take and return raw objects (finite maps
    from property names to values, with the properties seen through the
    prototype chain kept apart).  The methods and the tile functions
    read the fields at the types of the JSDoc definitions, so they are
    stated over the records [Animal_t], [Human_t] and [Dino_t]. *)

From Stdlib Require Import ZArith QArith Qround Qabs Qpower Lqa.
From Stdlib Require Import String Ascii List Lia.
From Stdlib Require Import DecimalString DecimalPos Floats.
From stdpp Require Import gmap strings.

Open Scope string_scope.

(** ** JavaScript built-ins *)

Module JS.

(** Property values (the JSON-like fragment the data file can hold). *)
Inductive value :=
| VUndefined
| VNull
| VBool (b : bool)
| VNumber (x : float)
| VString (s : string).

(** An object: its own properties, and the properties it sees through
    its prototype chain. *)
Record object := Object {
  own : gmap string value;
  inherited : gmap string value
}.

(** An object literal [{k1: v1, ...}]: nothing inherited that the
    program reads. *)
Definition literal (props : gmap string value) : object :=
  {| own := props; inherited := ∅ |}.

(** [Object.prototype.hasOwnProperty.call(o, k)] *)
Definition hasOwnProperty (o : object) (k : string) : bool :=
  bool_decide (is_Some (own o !! k)).

(** [o.k]: own property first, then the prototype chain, else [undefined]. *)
Definition get (o : object) (k : string) : value :=
  match own o !! k with
  | Some v => v
  | None => default VUndefined (inherited o !! k)
  end.

(** [Object.assign(target, source)]: own properties of [source] are
    written over those of [target]. *)
Definition Object_assign (target source : object) : object :=
  {| own := own source ∪ own target; inherited := inherited target |}.

(** The rest of an object destructuring [{k1, ..., kn, ...rest} = o]:
    a fresh object with the own properties of [o] but the named ones. *)
Definition rest_of (named : list string) (o : object) : object :=
  literal (foldr delete (own o) named).

(** Exceptions: the program's own [throw Error(message)], and the
    run-time [TypeError] of reading a property of [undefined]. *)
Inductive exn :=
| Error (message : string)
| TypeError.

Inductive outcome (A : Type) :=
| Ret (a : A)
| Throw (e : exn).
Arguments Ret {A} a.
Arguments Throw {A} e.

(** [Math.round]: the nearest integer, a tie going up. *)
Definition Math_round (x : Q) : Z := Qfloor (x + (1#2)).

(** Decimal digits of a non-negative integer. *)
Definition digits (n : Z) : string :=
  NilEmpty.string_of_uint (N.to_uint (Z.to_N n)).

Definition digit (d : Z) : ascii := ascii_of_nat (48 + Z.to_nat d).

(** The last [f] decimal digits of [r], most significant first. *)
Fixpoint frac_digits (f : nat) (r : Z) : string :=
  match f with
  | O => EmptyString
  | S f' => frac_digits f' (r / 10) +:+ String (digit (r mod 10)) EmptyString
  end.

(** The digits that [toFixed] writes for a number below 10^21 in
    magnitude: the sign, then the integer [n] nearest to [|x| * 10^f]
    (the larger one on a tie) with [f] digits after the point. *)
Definition fixed_digits (x : Q) (f : nat) : string :=
  let s := if Qlt_le_dec x 0 then "-" else "" in
  let n := Qfloor (Qabs x * inject_Z (10 ^ Z.of_nat f) + (1#2)) in
  s +:+ digits (n / 10 ^ Z.of_nat f) +:+
    match f with
    | O => ""
    | S _ => "." +:+ frac_digits f (n mod 10 ^ Z.of_nat f)
    end.

(** The mathematical value of a double; none for NaN and the
    infinities. *)
Definition SF_value (x : spec_float) : option Q :=
  match x with
  | S754_zero _ => Some 0%Q
  | S754_finite s m e =>
      Some (inject_Z (cond_Zopp s (Zpos m)) * Qpower 2 e)%Q
  | _ => None
  end.

Definition value_of (x : float) : option Q := SF_value (Prim2SF x).

(** [Math.round(x)] on a double: [x] itself when it is NaN, infinite,
    a zero or already integral, else the double of the integer nearest
    to [x], a tie going up; a zero result keeps the sign of [x]. *)
Definition Math_round_double (x : float) : float :=
  match Prim2SF x with
  | S754_finite s m e =>
      if (0 <=? e)%Z then x
      else SF2Prim (binary_normalize prec emax
                      (Math_round
                         (inject_Z (cond_Zopp s (Zpos m)) * Qpower 2 e))
                      0 s)
  | _ => x
  end.

Section Numbers.
(** [Number::toString], the conversion a template literal applies. *)
Variable Number_toString : float -> string.

(** [x.toFixed(f)] (ECMA-262, Number.prototype.toFixed): a number that
    is not finite is printed by [Number::toString]; otherwise the sign
    is split off, and a magnitude of 10^21 or more is printed by
    [Number::toString] too. *)
Definition toFixed (x : float) (f : nat) : string :=
  match value_of x with
  | None => Number_toString x
  | Some q =>
      if Qlt_le_dec (Qabs q) (inject_Z (10 ^ 21)) then fixed_digits q f
      else (if Qlt_le_dec q 0 then "-" else "") +:+ Number_toString (abs x)
  end.
End Numbers.

(** [a || b] on optional strings: [undefined] and the empty string are
    falsy. *)
Definition truthy (s : option string) : option string :=
  match s with
  | Some EmptyString => None
  | _ => s
  end.

(** State of a run: the markup of the grid element and the number of
    [Math.random] calls made so far. *)
Record state := State {
  grid_innerHTML : string;
  random_calls : nat
}.

Definition M (A : Type) : Type := state -> outcome A * state.

Definition ret {A} (a : A) : M A := fun s => (Ret a, s).
Definition throw {A} (e : exn) : M A := fun s => (Throw e, s).
Definition bind {A B} (c : M A) (k : A -> M B) : M B :=
  fun s => match c s with
           | (Ret a, s') => k a s'
           | (Throw e, s') => (Throw e, s')
           end.

(** [for (let i = from; i < from + count; i++) body(i)] *)
Fixpoint for_ (from : nat) (count : nat) (body : nat -> M unit) : M unit :=
  match count with
  | O => ret tt
  | S count' => bind (body from) (fun _ => for_ (S from) count' body)
  end.

Section Random.
(** The value returned by the [n]-th call of [Math.random]. *)
Variable random : nat -> Q.

Definition Math_random : M Q :=
  fun s => (Ret (random (random_calls s)),
            {| grid_innerHTML := grid_innerHTML s;
               random_calls := S (random_calls s) |}).
End Random.

(** [grid.innerHTML += html] *)
Definition append_innerHTML (html : string) : M unit :=
  fun s => (Ret tt,
            {| grid_innerHTML := grid_innerHTML s +:+ html;
               random_calls := random_calls s |}).

End JS.

Import JS.

Notation "'let!' x ':=' c 'in' k" := (bind c (fun x => k))
  (at level 10, x name, c at level 100, k at level 200).

(** The double quote and the line feed of the markup template. *)
Definition dquote : string := String "034"%char EmptyString.
Definition newline : string := String "010"%char EmptyString.

(** ** The program *)

Definition EXPECTED_PROPERTIES : list string :=
  ["species"; "weight"; "height"; "diet"; "where"; "when"; "fact"].

(** The JSDoc type definitions. *)
Record Animal_t := {
  weight : float;
  height : float;
  diet : string
}.

Record Human_t := {
  human_animal :> Animal_t;
  name : string
}.

Record Dino_t := {
  dino_animal :> Animal_t;
  species : string;
  where_ : string;
  when_ : string;
  fact : string
}.

(** [const Animal = function(properties) {...}] *)
Definition Animal (properties : object) : object :=
  literal (<["weight" := get properties "weight"]>
          (<["height" := get properties "height"]>
          (<["diet" := get properties "diet"]> ∅))).

(** [const Human = function Human(properties) {...}] *)
Definition Human (properties : object) : object :=
  let name := get properties "name" in
  let rest := rest_of ["name"] properties in
  Object_assign (Animal rest) (literal {["name" := name]}).

(** The first element of the list that is not an own property: what
    the [forEach] of [Dino] throws on. *)
Fixpoint first_missing (expected : list string) (properties : object)
  : option string :=
  match expected with
  | [] => None
  | value :: expected' =>
      if negb (hasOwnProperty properties value) then Some value
      else first_missing expected' properties
  end.

Definition missing_message (value : string) : string :=
  "Missing required Dinosaur property: " +:+ value.

(** [const Dino = function Dino(properties) {...}] *)
Definition Dino (properties : object) : outcome object :=
  match first_missing EXPECTED_PROPERTIES properties with
  | Some value => Throw (Error (missing_message value))
  | None =>
      let species := get properties "species" in
      let where_ := get properties "where" in
      let when_ := get properties "when" in
      let fact := get properties "fact" in
      let rest := rest_of ["species"; "where"; "when"; "fact"] properties in
      Ret (Object_assign (Animal rest)
             (literal (<["species" := species]>
                      (<["where" := where_]>
                      (<["when" := when_]>
                      (<["fact" := fact]> ∅))))))
  end.

(** [data.Dinos.forEach(value => { dinos.push(Dino(value)); })]: the
    array [dinos] after the loop, started from [dinos]; nothing catches
    what [Dino] throws. *)
Fixpoint create_dinos (Dinos : list object) (dinos : list object)
  : outcome (list object) :=
  match Dinos with
  | [] => Ret dinos
  | value :: Dinos' =>
      match Dino value with
      | Ret d => create_dinos Dinos' (dinos ++ [d])
      | Throw e => Throw e
      end
  end.

(** ** The comparison methods

    [this] is the receiver of the call, [animal] its argument. *)

Section Methods.
Variable Number_toString : float -> string.

(** A rounded percentage, as a template literal prints it. *)
Definition percent (x : float) : string :=
  Number_toString (Math_round_double x).

(** [const compareWeights = function(animal) {...}] *)
Definition compareWeights (this animal : Animal_t) : string :=
  let diff := (weight animal - weight this)%float in
  if (0 <? diff)%float then
    "At " +:+ Number_toString (weight this) +:+ " lbs, I am about " +:+
    percent (100 * (weight animal - weight this) / weight animal)%float
    +:+ "% " +:+ "lighter than you"
  else if (diff <? 0)%float then
    "At " +:+ Number_toString (weight this) +:+ " lbs, I am about " +:+
    percent (100 * (weight this - weight animal) / weight animal)%float
    +:+ "% " +:+ "heavier than you"
  else "We have the exact same weight!".

(** [const compareHeights = function (animal) {...}] *)
Definition compareHeights (this animal : Animal_t) : string :=
  let diff := (height animal - height this)%float in
  if (0 <? diff)%float then
    "At " +:+ toFixed Number_toString (height this / 12)%float 2 +:+
    " feet, I am about " +:+
    percent (100 * (height animal - height this) / height animal)%float
    +:+ "% " +:+ "smaller than you"
  else if (diff <? 0)%float then
    "At " +:+ toFixed Number_toString (height this / 12)%float 2 +:+
    " feet, I am about " +:+
    percent (100 * (height this - height animal) / height animal)%float
    +:+ "% " +:+ "taller than you"
  else "We have the exact same height!".

(** [const compareDiet = function (animal) {...}] *)
Definition compareDiet (this animal : Animal_t) : string :=
  if negb (diet this =? "herbivore") && (diet animal =? "herbivore") then
    "Really, you don't eat meat ?"
  else if (diet this =? "herbivore") && negb (diet animal =? "herbivore") then
    "I think you shouldn't eat meat, you know."
  else if negb (diet this =? "carnivore") && (diet animal =? "carnivore") then
    "I think you should try some vegetables, you know !"
  else if (diet this =? "carnivore") && negb (diet animal =? "carnivore") then
    "Why do you waste your appetite on vegetables ?"
  else "We like the same food !".

(** ** Tiles *)

(** [const generateTileHTML = function (caption, fact, image) {...}];
    an argument that is left out or [undefined] is [None]. *)
Definition generateTileHTML (caption : string) (fact image : option string)
  : string :=
  let image := default caption (truthy image) in
  let fact := truthy fact in
  "<div class=" +:+ dquote +:+ "grid-item" +:+ dquote +:+ ">" +:+ newline +:+
  "                <h3>" +:+ caption +:+ "</h3>" +:+ newline +:+
  "                <img src=" +:+ dquote +:+ "images/" +:+ image +:+ ".png" +:+
    dquote +:+ " alt=" +:+ dquote +:+ caption +:+ " image" +:+ dquote +:+
    "/>" +:+ newline +:+
  "                " +:+
    match fact with
    | Some fact => "<p>" +:+ fact +:+ "</p>"
    | None => ""
    end +:+ newline +:+
  "            </div>".

(** The array [facts] of [getTileHTML]. *)
Definition facts (human : Human_t) (other : Dino_t) : list string :=
  [ "Location: " +:+ where_ other;
    "When I lived: " +:+ when_ other;
    fact other;
    compareDiet other human;
    compareHeights other human;
    compareWeights other human ].

(** [a[i]] for a number [i] that is an integer: [undefined] out of range. *)
Definition index {A} (a : list A) (i : Z) : option A :=
  if (i <? 0)%Z then None else a !! Z.to_nat i.

Variable random : nat -> Q.

(** [const getTileHTML = function(human, other) {...}]; [others] holds
    the arguments passed after [human], [None] being [undefined]. *)
Definition getTileHTML (human : Human_t) (others : list (option Dino_t))
  : M string :=
  match others with
  | [other] =>
      match other with
      | None => throw TypeError
      | Some other =>
          if species other =? "Pigeon" then
            ret (generateTileHTML "Pigeon" (Some (fact other)) None)
          else
            let facts := facts human other in
            let! u := Math_random random in
            let fact := index facts (Math_round (u * 5)) in
            ret (generateTileHTML (species other) fact None)
      end
  | _ => ret (generateTileHTML (name human) (Some "") (Some "human"))
  end.

(** [function addTiles(human) {...}], over the global array [dinos]. *)
Definition addTiles (dinos : list Dino_t) (human : Human_t) : M unit :=
  let! _ := for_ 0 4 (fun i =>
              let! tile := getTileHTML human [dinos !! i] in
              append_innerHTML tile) in
  let! tile := getTileHTML human [] in
  let! _ := append_innerHTML tile in
  for_ 4 4 (fun i =>
    let! tile := getTileHTML human [dinos !! i] in
    append_innerHTML tile).

End Methods.

(** ** Doubles *)

(** A double of sign [s] that is not a zero: an infinity or a finite
    number. *)
Definition signed (s : bool) (r : spec_float) : Prop :=
  r = S754_infinity s \/ exists m e, r = S754_finite s m e.

(** The value of a finite double, as an integer multiple of 2^[ez]. *)
Definition scaled (ez : Z) (s : bool) (m : positive) (e : Z) : Z :=
  cond_Zopp s (Zpos (fst (shl_align m e ez))).

(** ** Vocabulary of the specification *)

(** Rounding half up: [n] is the integer nearest to [x], the upper one
    when [x] lies halfway between two integers. *)
Definition round_half_up (x : Q) (n : Z) : Prop :=
  (inject_Z n - (1#2) <= x /\ x < inject_Z n + (1#2))%Q.

(** A tile: a caption, a body (empty when there is none) and the name of
    its image. *)
Record Tile := {
  caption : string;
  body : string;
  image_name : string
}.

(** The markup of a tile; the body paragraph is left out when the body
    is empty. *)
Definition render (t : Tile) : string :=
  "<div class=" +:+ dquote +:+ "grid-item" +:+ dquote +:+ ">" +:+ newline +:+
  "                <h3>" +:+ caption t +:+ "</h3>" +:+ newline +:+
  "                <img src=" +:+ dquote +:+ "images/" +:+ image_name t +:+
    ".png" +:+ dquote +:+ " alt=" +:+ dquote +:+ caption t +:+ " image" +:+
    dquote +:+ "/>" +:+ newline +:+
  "                " +:+
    (if body t =? "" then "" else "<p>" +:+ body t +:+ "</p>") +:+ newline +:+
  "            </div>".

Definition is_digit (c : ascii) : bool :=
  (48 <=? nat_of_ascii c)%nat && (nat_of_ascii c <=? 57)%nat.

Fixpoint all_digits (s : string) : bool :=
  match s with
  | EmptyString => true
  | String c s' => is_digit c && all_digits s'
  end.

(** [digits_then_point s] is the text after the first point of [s] when
    [s] is one or more digits, a point, and more text. *)
Fixpoint digits_then_point (seen : bool) (s : string) : option string :=
  match s with
  | EmptyString => None
  | String c s' =>
      if Ascii.eqb c "."%char then (if seen then Some s' else None)
      else if is_digit c then digits_then_point true s'
      else None
  end.

(** A number written with exactly [f] decimal places ([f] positive): an
    optional minus sign, digits, a point, and [f] digits. *)
Definition fixed_format (f : nat) (s : string) : bool :=
  let unsigned :=
    match s with
    | String c s' => if Ascii.eqb c "-"%char then s' else s
    | EmptyString => s
    end in
  match digits_then_point false unsigned with
  | Some frac => all_digits frac && (String.length frac =? f)%nat
  | None => false
  end.

(** The tile of the human: the name as caption, no body, and the image
    named human. *)
Definition human_tile (human : Human_t) : Tile :=
  {| caption := name human; body := ""; image_name := "human" |}.

(** The tile of the sentinel species: its fact, verbatim. *)
Definition sentinel_tile (d : Dino_t) : Tile :=
  {| caption := "Pigeon"; body := fact d; image_name := "Pigeon" |}.

(** The six candidate facts of a dinosaur, in the order of the spec:
    location, era, fact, then the diet, height and weight comparisons
    made from the dinosaur's side. *)
Definition candidates (show : float -> string) (human : Human_t)
    (d : Dino_t)
  : list string :=
  [ "Location: " +:+ where_ d;
    "When I lived: " +:+ when_ d;
    fact d;
    compareDiet d human;
    compareHeights show d human;
    compareWeights show d human ].

(** [t] is an admissible markup for the tile of dinosaur [d]. *)
Definition dino_tile (show : float -> string) (human : Human_t) (d : Dino_t)
    (t : string) : Prop :=
  if species d =? "Pigeon" then t = render (sentinel_tile d)
  else exists b, In b (candidates show human d) /\
         t = render {| caption := species d; body := b;
                       image_name := species d |}.

(** [s] comes from [s0] by appending markup to the grid and making at
    most [n] calls of [Math.random]. *)
Definition extends (n : nat) (s0 s : state) : Prop :=
  (exists added, grid_innerHTML s = grid_innerHTML s0 +:+ added) /\
  (random_calls s0 <= random_calls s <= random_calls s0 + n)%nat.

(** ** Example data *)

(** [Number::toString] on NaN, the infinities and the integers of
    magnitude below 10^21 (decimal digits, with a minus sign); the
    examples only print such numbers. *)
Definition Number_toString_int (x : float) : string :=
  match Prim2SF x with
  | S754_nan => "NaN"
  | S754_infinity s => (if s then "-" else "") +:+ "Infinity"
  | S754_zero _ => "0"
  | S754_finite s m e =>
      (if s then "-" else "") +:+
      digits (Qfloor (inject_Z (Zpos m) * Qpower 2 e))
  end.

Definition trex : Dino_t := {|
  dino_animal := {| weight := 13400; height := 144; diet := "carnivore" |};
  species := "Tyrannosaurus Rex";
  where_ := "North America";
  when_ := "Late Cretaceous";
  fact := "The largest known skull measures in at 5 feet long."
|}.

Definition pigeon : Dino_t := {|
  dino_animal := {| weight := 0.5; height := 9; diet := "herbivore" |};
  species := "Pigeon";
  where_ := "World Wide";
  when_ := "Holocene";
  fact := "All birds are living dinosaurs."
|}.

Definition ann : Human_t := {|
  human_animal := {| weight := 120; height := 65; diet := "omnivore" |};
  name := "Ann"
|}.

(** An animal twelve times 10^21 inches tall, and one an inch tall. *)
Definition colossus : Animal_t :=
  {| weight := 1; height := 1.2e22; diet := "herbivore" |}.

Definition inchling : Animal_t :=
  {| weight := 1; height := 1; diet := "herbivore" |}.

(** A bird of 41.4 lbs and 12.9 inches; as in JavaScript, a decimal
    literal stands for the double nearest to it. *)
#[local] Set Warnings "-inexact-float".
Definition sparrow : Animal_t :=
  {| weight := 41.4; height := 12.9; diet := "herbivore" |}.

(** An animal of no weight. *)
Definition weightless : Animal_t :=
  {| weight := 0; height := 1; diet := "herbivore" |}.

(** An animal whose weight and height are not numbers, as [parseFloat]
    gives for form fields left empty. *)
Definition unmeasured : Animal_t :=
  {| weight := nan; height := nan; diet := "herbivore" |}.

Definition eight_dinos : list Dino_t :=
  [trex; trex; trex; pigeon; trex; trex; trex; pigeon].

(** A raw dinosaur record, as the data file gives it. *)
Definition pigeon_record : object :=
  literal (<["species" := VString "Pigeon"]>
          (<["weight" := VNumber 0.5]>
          (<["height" := VNumber 9]>
          (<["diet" := VString "herbivore"]>
          (<["where" := VString "World Wide"]>
          (<["when" := VString "Holocene"]>
          (<["fact" := VString "All birds are living dinosaurs."]> ∅))))))).

(** The same record with one more property. *)
Definition pigeon_record_extra : object :=
  literal (<["colour" := VString "grey"]> (own pigeon_record)).


(** The record that [showTiles] builds from the form. *)
Definition ann_record : object :=
  literal (<["name" := VString "Ann"]>
          (<["height" := VNumber 65]>
          (<["weight" := VNumber 120]>
          (<["diet" := VString "omnivore"]> ∅)))).

(** An object that has a name of its own and inherits its weight. *)
Definition heir_record : object :=
  {| own := {["name" := VString "Ann"]};
     inherited := {["weight" := VNumber 120]} |}.

(** ** Rounding *)

Lemma Qfloor_iff (x : Q) (k : Z) :
  Qfloor x = k <-> (inject_Z k <= x /\ x < inject_Z (k + 1))%Q.
Proof.
  split.
  - intros <-. split; [apply Qfloor_le | apply Qlt_floor].
  - intros [Hlo Hhi].
    pose proof (Qfloor_le x) as Hfl. pose proof (Qlt_floor x) as Hfu.
    assert (inject_Z (Qfloor x) < inject_Z (k + 1))%Q as H1
      by (eapply Qle_lt_trans; eassumption).
    assert (inject_Z k < inject_Z (Qfloor x + 1))%Q as H2
      by (eapply Qle_lt_trans; eassumption).
    rewrite <- Zlt_Qlt in H1, H2. lia.
Qed.

Lemma Math_round_half_up (x : Q) (n : Z) :
  Math_round x = n <-> round_half_up x n.
Proof.
  unfold Math_round, round_half_up. rewrite Qfloor_iff.
  rewrite inject_Z_plus. change (inject_Z 1) with 1%Q.
  split; intros [H1 H2]; split; lra.
Qed.

Lemma Math_round_range (x : Q) (lo hi : Z) :
  (inject_Z lo - (1#2) <= x)%Q -> (x < inject_Z hi + (1#2))%Q ->
  (lo <= Math_round x <= hi)%Z.
Proof.
  intros Hlo Hhi.
  destruct (proj1 (Math_round_half_up x _) eq_refl) as [H1 H2].
  assert (inject_Z lo < inject_Z (Math_round x + 1))%Q as Ha
    by (rewrite inject_Z_plus; change (inject_Z 1) with 1%Q; lra).
  assert (inject_Z (Math_round x) < inject_Z (hi + 1))%Q as Hb
    by (rewrite inject_Z_plus; change (inject_Z 1) with 1%Q; lra).
  rewrite <- Zlt_Qlt in Ha, Hb. lia.
Qed.

(** ** The random choice of a fact *)

Lemma getTileHTML_dinosaur show random human other s :
  (species other =? "Pigeon") = false ->
  getTileHTML show random human [Some other] s =
    (Ret (generateTileHTML (species other)
            (index (facts show human other)
               (Math_round (random (random_calls s) * 5))) None),
     {| grid_innerHTML := grid_innerHTML s;
        random_calls := S (random_calls s) |}).
Proof.
  intros Hsp. unfold getTileHTML. rewrite Hsp. reflexivity.
Qed.

(** C1.  The fact of a dinosaur tile is [facts[Math.round(u * 5)]] for
    the tile's own draw [u] of [Math.random].  For [u] in [0,1) the
    index lies in 0..5, and it is 0 exactly on [0, 1/10), 1 on
    [1/10, 3/10), 2 on [3/10, 5/10), 3 on [5/10, 7/10), 4 on
    [7/10, 9/10) and 5 on [9/10, 1): the first and the last fact are
    drawn with probability 1/10 and the four others with probability
    1/5, not 1/6 each. *)
Theorem fact_draw_distribution show random human other s :
  (species other =? "Pigeon") = false ->
  (0 <= random (random_calls s) /\ random (random_calls s) < 1)%Q ->
  exists k : nat,
    getTileHTML show random human [Some other] s =
      (Ret (generateTileHTML (species other)
              (facts show human other !! k) None),
       {| grid_innerHTML := grid_innerHTML s;
          random_calls := S (random_calls s) |}) /\
    (k < 6)%nat /\
    (k = 0%nat <-> (random (random_calls s) < 1 # 10)%Q) /\
    (k = 1%nat <-> (1 # 10 <= random (random_calls s) /\
                    random (random_calls s) < 3 # 10)%Q) /\
    (k = 2%nat <-> (3 # 10 <= random (random_calls s) /\
                    random (random_calls s) < 5 # 10)%Q) /\
    (k = 3%nat <-> (5 # 10 <= random (random_calls s) /\
                    random (random_calls s) < 7 # 10)%Q) /\
    (k = 4%nat <-> (7 # 10 <= random (random_calls s) /\
                    random (random_calls s) < 9 # 10)%Q) /\
    (k = 5%nat <-> (9 # 10 <= random (random_calls s))%Q).
Proof.
  intros Hsp [Hu0 Hu1].
  set (u := random (random_calls s)) in *.
  assert (0 <= Math_round (u * 5) <= 5)%Z as Hr
    by (apply Math_round_range; unfold inject_Z; lra).
  destruct (proj1 (Math_round_half_up (u * 5) _) eq_refl) as [H1 H2].
  exists (Z.to_nat (Math_round (u * 5))).
  split.
  { rewrite getTileHTML_dinosaur by exact Hsp. fold u. unfold index.
    destruct (Z.ltb_spec (Math_round (u * 5)) 0); [lia | reflexivity]. }
  assert (Math_round (u * 5) = 0 \/ Math_round (u * 5) = 1 \/
          Math_round (u * 5) = 2 \/ Math_round (u * 5) = 3 \/
          Math_round (u * 5) = 4 \/ Math_round (u * 5) = 5)%Z as Hcase by lia.
  destruct Hcase as [E | [E | [E | [E | [E | E]]]]];
    rewrite E in *; unfold inject_Z in H1, H2;
    cbn [Z.to_nat Pos.to_nat Pos.iter_op Nat.add];
    (split; [lia |]);
    repeat split; intros; try lia; try lra; try discriminate.
Qed.

Lemma fact_draw_distribution_witness :
  (0 <= 1 # 8 /\ 1 # 8 < 1)%Q /\
  exists k : nat,
    getTileHTML Number_toString_int (fun _ => 1 # 8) ann [Some trex]
      (State "" 0) =
      (Ret (generateTileHTML (species trex)
              (facts Number_toString_int ann trex !! k) None),
       State "" 1) /\
    (k = 1%nat <-> (1 # 10 <= 1 # 8 /\ 1 # 8 < 3 # 10)%Q).
Proof.
  assert (0 <= 1 # 8 /\ 1 # 8 < 1)%Q as Hu by (split; lra).
  split; [exact Hu |].
  destruct (fact_draw_distribution Number_toString_int (fun _ => 1 # 8)
              ann trex (State "" 0) eq_refl Hu)
    as (k & Htile & _ & _ & H1 & _).
  exists k. split; [exact Htile | exact H1].
Defined.

(** On a grid of 60 equally spaced draws the six indices are hit
    6, 12, 12, 12, 12 and 6 times. *)
Example fact_draw_grid_60 :
  map (fun k => length (List.filter (fun j => Math_round ((Z.of_nat j # 60) * 5) =? k)%Z
                          (seq 0 60)))
      [0; 1; 2; 3; 4; 5]%Z
  = [6; 12; 12; 12; 12; 6]%nat.
Proof. vm_compute. reflexivity. Qed.

(** ** Doubles

    Facts of IEEE 754 arithmetic that the comparison methods rest on:
    a difference of two doubles has the sign that the order of the
    operands gives it, and an integer below 2^53 in magnitude is a
    double. *)

Section Doubles.
Local Open Scope Z_scope.

Lemma digits2_pos_lower (m : positive) :
  2 ^ (Zpos (digits2_pos m) - 1) <= Zpos m.
Proof.
  induction m as [m IH | m IH |]; cbn [digits2_pos].
  - rewrite Pos2Z.inj_succ. replace (Z.succ (Zpos (digits2_pos m)) - 1)
      with (Z.succ (Zpos (digits2_pos m) - 1)) by lia.
    rewrite Z.pow_succ_r by lia. lia.
  - rewrite Pos2Z.inj_succ. replace (Z.succ (Zpos (digits2_pos m)) - 1)
      with (Z.succ (Zpos (digits2_pos m) - 1)) by lia.
    rewrite Z.pow_succ_r by lia. lia.
  - reflexivity.
Qed.

Lemma digits2_pos_upper (m : positive) :
  Zpos m < 2 ^ Zpos (digits2_pos m).
Proof.
  induction m as [m IH | m IH |]; cbn [digits2_pos].
  - rewrite Pos2Z.inj_succ, Z.pow_succ_r by lia. lia.
  - rewrite Pos2Z.inj_succ, Z.pow_succ_r by lia. lia.
  - reflexivity.
Qed.

Lemma shr_1_m (mrs : shr_record) :
  0 <= shr_m mrs -> shr_m (shr_1 mrs) = shr_m mrs / 2.
Proof.
  destruct mrs as [m r s]. cbn [shr_m]. intros Hm.
  rewrite <- Z.div2_div.
  destruct m as [| [p | p |] | p]; cbn [shr_1 shr_m]; try reflexivity; lia.
Qed.

Lemma shr_1_lower (mrs : shr_record) (k : Z) :
  0 <= k -> 2 ^ (1 + k) <= shr_m mrs -> 2 ^ k <= shr_m (shr_1 mrs).
Proof.
  intros Hk Hm. assert (0 < 2 ^ k) by (apply Z.pow_pos_nonneg; lia).
  rewrite Z.pow_add_r in Hm by lia. change (2 ^ 1) with 2 in Hm.
  rewrite shr_1_m by lia. apply Z.div_le_lower_bound; lia.
Qed.

Lemma iter_shr_1_lower (p : positive) (mrs : shr_record) (k : Z) :
  0 <= k -> 2 ^ (Zpos p + k) <= shr_m mrs ->
  2 ^ k <= shr_m (SpecFloat.iter_pos shr_1 p mrs).
Proof.
  revert mrs k. induction p as [p IH | p IH |]; intros mrs k Hk Hm;
    cbn [SpecFloat.iter_pos].
  - apply IH; [exact Hk |]. apply IH; [lia |]. apply shr_1_lower; [lia |].
    replace (1 + (Zpos p + (Zpos p + k))) with (Zpos p~1 + k) by lia. exact Hm.
  - apply IH; [exact Hk |]. apply IH; [lia |].
    replace (Zpos p + (Zpos p + k)) with (Zpos p~0 + k) by lia. exact Hm.
  - apply shr_1_lower; assumption.
Qed.

(** The first property of [shr_fexp] this development needs: a positive
    mantissa at an exponent not below [emin] stays positive. *)
Lemma shr_fexp_positive (m : positive) (e : Z) (l : location) :
  -1074 <= e ->
  0 < shr_m (fst (shr_fexp prec emax (Zpos m) e l)) /\
  -1074 <= snd (shr_fexp prec emax (Zpos m) e l).
Proof.
  intros He. unfold shr_fexp, shr, fexp, emin, prec, emax. cbn [Zdigits2].
  assert (shr_m (shr_record_of_loc (Zpos m) l) = Zpos m) as Hrec
    by (destruct l as [| []]; reflexivity).
  pose proof (digits2_pos_lower m) as Hlow.
  destruct (Z.max (Zpos (digits2_pos m) + e - 53) (3 - 1024 - 53) - e)
    as [| n | n] eqn:En; cbn [fst snd].
  - rewrite Hrec. lia.
  - split; [| lia].
    assert (2 ^ 0 <= shr_m (SpecFloat.iter_pos shr_1 n (shr_record_of_loc (Zpos m) l)))
      as H; [| change (2 ^ 0) with 1 in H; lia].
    apply iter_shr_1_lower; [lia |]. rewrite Hrec.
    eapply Z.le_trans; [| exact Hlow]. apply Z.pow_le_mono_r; lia.
  - rewrite Hrec. lia.
Qed.

Lemma round_nearest_even_positive (m : Z) (l : location) :
  0 < m -> 0 < round_nearest_even m l.
Proof.
  intros Hm. destruct l as [| []]; cbn [round_nearest_even]; try lia.
  destruct (Z.even m); lia.
Qed.

Lemma binary_round_aux_signed (s : bool) (m : positive) (e : Z) (l : location) :
  -1074 <= e -> signed s (binary_round_aux prec emax s (Zpos m) e l).
Proof.
  intros He. unfold binary_round_aux.
  destruct (shr_fexp_positive m e l He) as [Hm1 He1].
  destruct (shr_fexp prec emax (Zpos m) e l) as [mrs1 e1]. cbn [fst snd] in *.
  pose proof (round_nearest_even_positive _ (loc_of_shr_record mrs1) Hm1) as Hm2.
  destruct (round_nearest_even (shr_m mrs1) (loc_of_shr_record mrs1))
    as [| m2 | m2]; try lia.
  destruct (shr_fexp_positive m2 e1 loc_Exact He1) as [Hm3 _].
  destruct (shr_fexp prec emax (Zpos m2) e1 loc_Exact) as [mrs3 e3].
  cbn [fst snd] in *.
  destruct (shr_m mrs3) as [| m3 | m3]; try lia.
  destruct (e3 <=? emax - prec); [right; eauto | left; reflexivity].
Qed.

Lemma binary_round_signed (s : bool) (m : positive) (e : Z) :
  -1074 <= e -> signed s (binary_round prec emax s m e).
Proof.
  intros He. unfold binary_round, shl_align.
  destruct (fexp prec emax (Zpos (digits2_pos m) + e) - e) as [| d | d] eqn:Ed;
    try (apply binary_round_aux_signed; exact He).
  apply binary_round_aux_signed.
  unfold fexp, emin, prec, emax in *. lia.
Qed.

Lemma binary_normalize_signed (D e : Z) :
  -1074 <= e -> D <> 0 ->
  signed (D <? 0) (binary_normalize prec emax D e false).
Proof.
  intros He HD. destruct D as [| m | m]; [congruence | |];
    cbn [binary_normalize]; apply binary_round_signed; exact He.
Qed.

Lemma valid_finite (s : bool) (m : positive) (e : Z) :
  valid_binary (S754_finite s m e) = true ->
  -1074 <= e /\ Zpos m < 2 ^ 53 /\ (-1074 < e -> 2 ^ 52 <= Zpos m).
Proof.
  cbn [SpecFloat.valid_binary]. unfold bounded, canonical_mantissa, fexp, emin.
  unfold prec, emax. intros H. apply andb_prop in H as [H _].
  apply Z.eqb_eq in H.
  pose proof (digits2_pos_lower m) as Hlow.
  pose proof (digits2_pos_upper m) as Hup.
  split; [lia |]. split.
  - eapply Z.lt_le_trans; [exact Hup |]. apply Z.pow_le_mono_r; lia.
  - intros He. replace (Zpos (digits2_pos m)) with 53 in Hlow by lia.
    exact Hlow.
Qed.

Lemma iter_xO (m d : positive) : Zpos (Pos.iter xO m d) = Zpos m * 2 ^ Zpos d.
Proof.
  induction d as [| d IH] using Pos.peano_ind.
  - cbn. lia.
  - rewrite Pos.iter_succ, Pos2Z.inj_xO, IH, Pos2Z.inj_succ, Z.pow_succ_r by lia.
    lia.
Qed.

Lemma shl_align_value (m : positive) (e ez : Z) :
  ez <= e -> Zpos (fst (shl_align m e ez)) = Zpos m * 2 ^ (e - ez).
Proof.
  intros Hle. unfold shl_align.
  destruct (ez - e) as [| d | d] eqn:Ed; cbn [fst]; try lia.
  - replace (e - ez) with 0 by lia. lia.
  - rewrite iter_xO. f_equal. f_equal. lia.
Qed.

Lemma SFcompare_scaled (sx sy : bool) (mx my : positive) (ex ey ez : Z) :
  valid_binary (S754_finite sx mx ex) = true ->
  valid_binary (S754_finite sy my ey) = true ->
  ez = Z.min ex ey ->
  SFcompare (S754_finite sx mx ex) (S754_finite sy my ey) =
    Some (scaled ez sx mx ex ?= scaled ez sy my ey).
Proof.
  intros Hx Hy ->. unfold scaled.
  rewrite !shl_align_value by lia.
  destruct (valid_finite _ _ _ Hx) as (Hex & Hmx & Hnx).
  destruct (valid_finite _ _ _ Hy) as (Hey & Hmy & Hny).
  cbn [SFcompare].
  destruct (Z.compare_spec ex ey) as [E | Hlt | Hgt].
  - subst ey. rewrite Z.min_id, Z.sub_diag, !Z.mul_1_r.
    rewrite Pos.compare_cont_spec.
    destruct (Pos.compare_spec mx my) as [E | Hlt | Hgt];
      destruct sx, sy; cbn [cond_Zopp Pos.switch_Eq CompOpp]; f_equal;
      symmetry;
      first [ apply Z.compare_eq_iff; lia | apply Z.compare_lt_iff; lia
            | apply Z.compare_gt_iff; lia ].
  - rewrite Z.min_l, Z.sub_diag, Z.mul_1_r by lia.
    assert (2 ^ 53 <= Zpos my * 2 ^ (ey - ex)) as Hbig.
    { assert (2 ^ 1 <= 2 ^ (ey - ex)) by (apply Z.pow_le_mono_r; lia).
      specialize (Hny ltac:(lia)). change (2 ^ 53) with (2 ^ 52 * 2 ^ 1).
      apply Z.mul_le_mono_nonneg; lia. }
    destruct sx, sy; cbn [cond_Zopp]; f_equal; symmetry;
      first [ apply Z.compare_lt_iff; lia | apply Z.compare_gt_iff; lia ].
  - rewrite Z.min_r, Z.sub_diag, Z.mul_1_r by lia.
    assert (2 ^ 53 <= Zpos mx * 2 ^ (ex - ey)) as Hbig.
    { assert (2 ^ 1 <= 2 ^ (ex - ey)) by (apply Z.pow_le_mono_r; lia).
      specialize (Hnx ltac:(lia)). change (2 ^ 53) with (2 ^ 52 * 2 ^ 1).
      apply Z.mul_le_mono_nonneg; lia. }
    destruct sx, sy; cbn [cond_Zopp]; f_equal; symmetry;
      first [ apply Z.compare_lt_iff; lia | apply Z.compare_gt_iff; lia ].
Qed.

Lemma SFsub_sign (x y : spec_float) :
  valid_binary x = true -> valid_binary y = true ->
  SFltb (S754_zero false) (SFsub prec emax y x) = SFltb x y /\
  SFltb (SFsub prec emax y x) (S754_zero false) = SFltb y x.
Proof.
  intros Hx Hy.
  destruct x as [sx | sx | | sx mx ex], y as [sy | sy | | sy my ey];
    try (destruct sx, sy; split; reflexivity);
    try (destruct sx; split; reflexivity);
    try (destruct sy; split; reflexivity);
    try (split; reflexivity).
  cbn [SFsub]. unfold SFltb.
  rewrite (SFcompare_scaled sx sy mx my ex ey (Z.min ey ex) Hx Hy (Z.min_comm _ _)).
  rewrite (SFcompare_scaled sy sx my mx ey ex (Z.min ey ex) Hy Hx eq_refl).
  fold (scaled (Z.min ey ex) sy my ey). fold (scaled (Z.min ey ex) sx mx ex).
  set (vx := scaled (Z.min ey ex) sx mx ex).
  set (vy := scaled (Z.min ey ex) sy my ey).
  destruct (valid_finite _ _ _ Hx) as (Hex & _).
  destruct (valid_finite _ _ _ Hy) as (Hey & _).
  destruct (Z.eq_dec (vy - vx) 0) as [E | Hne].
  - rewrite E. cbn [binary_normalize SFcompare].
    replace vy with vx by lia. rewrite Z.compare_refl. split; reflexivity.
  - destruct (binary_normalize_signed (vy - vx) (Z.min ey ex) ltac:(lia) Hne)
      as [-> | (m & e & ->)]; cbn [SFcompare];
      destruct (Z.ltb_spec (vy - vx) 0) as [Hneg | Hpos];
      destruct (Z.compare_spec vx vy), (Z.compare_spec vy vx);
      try lia; split; reflexivity.
Qed.

Lemma SFeqb_not_ltb (x y : spec_float) :
  valid_binary x = true -> valid_binary y = true ->
  SFeqb x y = true -> SFltb x y = false /\ SFltb y x = false.
Proof.
  intros Hx Hy.
  destruct x as [sx | sx | | sx mx ex], y as [sy | sy | | sy my ey];
    try (destruct sx, sy; cbn; intros; split; congruence);
    try (destruct sx; cbn; intros; split; congruence);
    try (destruct sy; cbn; intros; split; congruence);
    try (cbn; intros; split; congruence).
  unfold SFeqb, SFltb.
  rewrite (SFcompare_scaled sx sy mx my ex ey (Z.min ey ex) Hx Hy (Z.min_comm _ _)).
  rewrite (SFcompare_scaled sy sx my mx ey ex (Z.min ey ex) Hy Hx eq_refl).
  destruct (Z.compare_spec (scaled (Z.min ey ex) sx mx ex)
              (scaled (Z.min ey ex) sy my ey)) as [E | |];
    try discriminate.
  rewrite E, Z.compare_refl. split; reflexivity.
Qed.

Lemma digits2_pos_iter_xO (p k : positive) :
  Zpos (digits2_pos (Pos.iter xO p k)) = Zpos (digits2_pos p) + Zpos k.
Proof.
  induction k as [| k IH] using Pos.peano_ind.
  - cbn [Pos.iter digits2_pos]. lia.
  - rewrite Pos.iter_succ. cbn [digits2_pos]. lia.
Qed.

Lemma binary_round_aux_exact (s : bool) (m : positive) (e : Z) :
  Zpos (digits2_pos m) = 53 -> -1074 <= e <= 971 ->
  binary_round_aux prec emax s (Zpos m) e loc_Exact = S754_finite s m e.
Proof.
  intros Hd He. unfold binary_round_aux, shr_fexp, fexp, emin, prec, emax.
  cbn [Zdigits2 shr_record_of_loc]. rewrite Hd.
  replace (Z.max (53 + e - 53) (3 - 1024 - 53) - e) with 0 by lia.
  cbn [shr shr_m loc_of_shr_record round_nearest_even Zdigits2
       shr_record_of_loc].
  rewrite Hd.
  replace (Z.max (53 + e - 53) (3 - 1024 - 53) - e) with 0 by lia.
  cbn [shr shr_m]. 
  replace (e <=? 1024 - 53) with true by (symmetry; apply Z.leb_le; lia).
  reflexivity.
Qed.

(** A non-zero integer below 2^53 in magnitude is a double. *)
Lemma binary_round_integer (s : bool) (p : positive) :
  Zpos p < 2 ^ 53 ->
  exists m e,
    binary_round prec emax s p 0 = S754_finite s m e /\
    valid_binary (S754_finite s m e) = true /\
    e <= 0 /\ Zpos m = Zpos p * 2 ^ (- e).
Proof.
  intros Hp.
  pose proof (digits2_pos_lower p) as Hlow.
  assert (Zpos (digits2_pos p) <= 53) as Hd.
  { destruct (Z.le_gt_cases (Zpos (digits2_pos p)) 53) as [H | H]; [exact H |].
    exfalso. assert (2 ^ 53 <= 2 ^ (Zpos (digits2_pos p) - 1))
      by (apply Z.pow_le_mono_r; lia). lia. }
  unfold binary_round, shl_align, fexp, emin, prec, emax.
  destruct (Z.max (Zpos (digits2_pos p) + 0 - 53) (3 - 1024 - 53) - 0)
    as [| k | k] eqn:Ek; try lia.
  - exists p, 0. split; [apply binary_round_aux_exact; lia |].
    split; [| split; [lia | cbn; lia]].
    cbn [SpecFloat.valid_binary]. unfold bounded, canonical_mantissa, fexp, emin.
    apply andb_true_intro. split; [apply Z.eqb_eq | apply Z.leb_le];
      unfold prec, emax; lia.
  - exists (Pos.iter xO p k), (Z.max (Zpos (digits2_pos p) + 0 - 53) (3 - 1024 - 53)).
    assert (Zpos (digits2_pos (Pos.iter xO p k)) = 53) as Hd'
      by (rewrite digits2_pos_iter_xO; lia).
    split; [apply binary_round_aux_exact; [exact Hd' | lia] |].
    split; [| split; [lia |]].
    + cbn [SpecFloat.valid_binary].
      unfold bounded, canonical_mantissa, fexp, emin.
      apply andb_true_intro. split; [apply Z.eqb_eq | apply Z.leb_le];
        unfold prec, emax; lia.
    + rewrite iter_xO. f_equal. f_equal. lia.
Qed.

Lemma SFabs_binary_round (s : bool) (m : positive) (e : Z) :
  SFabs (binary_round prec emax s m e) = binary_round prec emax false m e.
Proof.
  unfold binary_round, binary_round_aux.
  destruct (shl_align m e _) as [mz ez].
  destruct (shr_fexp prec emax (Zpos mz) ez loc_Exact) as [mrs e'].
  destruct (shr_fexp prec emax _ e' loc_Exact) as [mrs' e''].
  destruct (shr_m mrs') as [| p | p]; [reflexivity | | reflexivity].
  destruct (e'' <=? emax - prec); reflexivity.
Qed.

Lemma SFabs_positive (r : spec_float) :
  SFltb (S754_zero false) r = true -> SFabs r = r.
Proof.
  destruct r as [s | s | | s m e]; try destruct s; cbn; congruence.
Qed.

Lemma SFabs_sub (x y : spec_float) :
  valid_binary x = true -> valid_binary y = true ->
  SFltb y x = true ->
  SFabs (SFsub prec emax y x) = SFsub prec emax x y.
Proof.
  intros Hx Hy.
  destruct x as [sx | sx | | sx mx ex], y as [sy | sy | | sy my ey];
    try (destruct sx, sy; cbn; congruence);
    try (destruct sx; cbn; congruence);
    try (destruct sy; cbn; congruence);
    try (cbn; congruence).
  unfold SFltb. cbn [SFsub].
  rewrite (SFcompare_scaled sy sx my mx ey ex (Z.min ey ex) Hy Hx eq_refl).
  rewrite (Z.min_comm ex ey).
  fold (scaled (Z.min ey ex) sy my ey). fold (scaled (Z.min ey ex) sx mx ex).
  set (vx := scaled (Z.min ey ex) sx mx ex).
  set (vy := scaled (Z.min ey ex) sy my ey).
  destruct (Z.compare_spec vy vx) as [| Hlt |]; try discriminate. intros _.
  destruct (vy - vx) as [| p | p] eqn:E; try lia.
  replace (vx - vy) with (Zpos p) by lia.
  cbn [binary_normalize]. apply SFabs_binary_round.
Qed.

Lemma SFltb_asym (d : spec_float) :
  SFltb d (S754_zero false) = true -> SFltb (S754_zero false) d = false.
Proof. destruct d as [s | s | | s m e]; try destruct s; cbn; congruence. Qed.

End Doubles.

(** The two tests of the comparison methods, in terms of the order of
    the operands. *)
Lemma sub_positive (a b : float) : (0 <? b - a)%float = (a <? b)%float.
Proof.
  rewrite !FloatAxioms.ltb_spec, FloatAxioms.sub_spec.
  exact (proj1 (SFsub_sign (Prim2SF a) (Prim2SF b)
                  (Prim2SF_valid a) (Prim2SF_valid b))).
Qed.

Lemma sub_negative (a b : float) : (b - a <? 0)%float = (b <? a)%float.
Proof.
  rewrite !FloatAxioms.ltb_spec, FloatAxioms.sub_spec.
  exact (proj2 (SFsub_sign (Prim2SF a) (Prim2SF b)
                  (Prim2SF_valid a) (Prim2SF_valid b))).
Qed.

Lemma eqb_not_ltb (a b : float) :
  (a =? b)%float = true -> (a <? b)%float = false /\ (b <? a)%float = false.
Proof.
  rewrite FloatAxioms.eqb_spec, !FloatAxioms.ltb_spec.
  apply SFeqb_not_ltb; apply Prim2SF_valid.
Qed.

Lemma ltb_asym (a b : float) :
  (b <? a)%float = true -> (a <? b)%float = false.
Proof.
  intros H. rewrite <- (sub_negative a b) in H. rewrite <- (sub_positive a b).
  rewrite FloatAxioms.ltb_spec in H |- *. exact (SFltb_asym _ H).
Qed.

Lemma abs_sub_lt (a b : float) :
  (a <? b)%float = true -> abs (b - a) = (b - a)%float.
Proof.
  intros H. apply Prim2SF_inj. rewrite abs_spec.
  apply SFabs_positive. rewrite <- sub_positive, FloatAxioms.ltb_spec in H.
  exact H.
Qed.

Lemma abs_sub_gt (a b : float) :
  (b <? a)%float = true -> abs (b - a) = (a - b)%float.
Proof.
  intros H. apply Prim2SF_inj. rewrite abs_spec, !FloatAxioms.sub_spec.
  rewrite FloatAxioms.ltb_spec in H.
  apply SFabs_sub; [apply Prim2SF_valid | apply Prim2SF_valid | exact H].
Qed.

Lemma Math_round_integer (k : Z) (q : Q) :
  (q == inject_Z k)%Q -> Math_round q = k.
Proof.
  intros E. unfold Math_round. apply Qfloor_iff.
  rewrite E, inject_Z_plus. change (inject_Z 1) with 1%Q. split; lra.
Qed.

Lemma Qpower_2_neg (k : Z) :
  (0 <= k)%Z -> (Qpower 2 (- k) == / inject_Z (2 ^ k))%Q.
Proof.
  intros Hk. rewrite Qpower_opp. apply Qinv_comp.
  rewrite Zpower_Qpower by exact Hk. reflexivity.
Qed.

Lemma SF_value_integer (s : bool) (m : positive) (e : Z) (n : Z) :
  (e <= 0)%Z -> cond_Zopp s (Zpos m) = (n * 2 ^ (- e))%Z ->
  (inject_Z (cond_Zopp s (Zpos m)) * Qpower 2 e == inject_Z n)%Q.
Proof.
  intros He Hm. rewrite Hm, inject_Z_mult.
  remember (- e)%Z as k eqn:Ek.
  assert (e = (- k)%Z) as -> by lia.
  rewrite Qpower_2_neg by lia.
  assert (0 < 2 ^ k)%Z as Hpos by (apply Z.pow_pos_nonneg; lia).
  field. intros H0.
  unfold Qeq, inject_Z in H0. cbn [Qnum Qden] in H0. lia.
Qed.

Lemma SF_value_bound (s : bool) (m : positive) (e : Z) :
  (Zpos m < 2 ^ 53)%Z -> (e < 0)%Z ->
  (inject_Z (- 2 ^ 52) <= inject_Z (cond_Zopp s (Zpos m)) * Qpower 2 e /\
   inject_Z (cond_Zopp s (Zpos m)) * Qpower 2 e <= inject_Z (2 ^ 52))%Q.
Proof.
  intros Hm He.
  remember (- e)%Z as k eqn:Ek.
  assert (e = (- k)%Z) as -> by lia.
  rewrite Qpower_2_neg by lia.
  assert (2 ^ 1 <= 2 ^ k)%Z as Hk by (apply Z.pow_le_mono_r; lia).
  change (2 ^ 1)%Z with 2%Z in Hk.
  assert (0 < inject_Z (2 ^ k))%Q as Hpos
    by (unfold Qlt, inject_Z; cbn [Qnum Qden]; lia).
  change (2 ^ 53)%Z with (2 ^ 52 * 2)%Z in Hm.
  assert (- (2 ^ 52 * 2 ^ k) <= cond_Zopp s (Zpos m) <= 2 ^ 52 * 2 ^ k)%Z
    as Hb by (destruct s; cbn [cond_Zopp]; nia).
  split.
  - apply Qle_shift_div_l; [exact Hpos |].
    rewrite <- inject_Z_mult. rewrite <- Zle_Qle. lia.
  - apply Qle_shift_div_r; [exact Hpos |].
    rewrite <- inject_Z_mult. rewrite <- Zle_Qle. lia.
Qed.

(** [Math.round] on doubles: the result is the double of the integer
    nearest to the argument, a tie going up. *)
Lemma Math_round_double_value (x : float) (q : Q) :
  value_of x = Some q ->
  exists q', value_of (Math_round_double x) = Some q' /\
             (q' == inject_Z (Math_round q))%Q.
Proof.
  unfold value_of, Math_round_double.
  pose proof (Prim2SF_valid x) as Hvalid.
  destruct (Prim2SF x) as [s | s | | s m e] eqn:Ex; cbn [SF_value];
    try discriminate.
  - intros [= <-]. rewrite Ex. cbn [SF_value]. exists 0%Q.
    split; reflexivity.
  - intros [= <-].
    destruct (valid_finite _ _ _ Hvalid) as (_ & Hm & _).
    destruct (Z.leb_spec 0 e) as [He | He].
    + rewrite Ex. cbn [SF_value]. eexists. split; [reflexivity |].
      assert (inject_Z (cond_Zopp s (Zpos m)) * Qpower 2 e ==
              inject_Z (cond_Zopp s (Zpos m) * 2 ^ e))%Q as E
        by (rewrite inject_Z_mult, Zpower_Qpower by lia; reflexivity).
      rewrite (Math_round_integer _ _ E). exact E.
    + set (q := (inject_Z (cond_Zopp s (Zpos m)) * Qpower 2 e)%Q).
      destruct (SF_value_bound s m e Hm He) as [Hlo Hhi]. fold q in Hlo, Hhi.
      assert (- 2 ^ 52 <= Math_round q <= 2 ^ 52)%Z as Hn
        by (apply Math_round_range; lra).
      destruct (Math_round q) as [| p | p] eqn:En.
      * cbn [binary_normalize].
        rewrite Prim2SF_SF2Prim by reflexivity. cbn [SF_value].
        exists 0%Q. split; reflexivity.
      * cbn [binary_normalize].
        destruct (binary_round_integer false p) as (m' & e' & -> & Hv & He' & Hm');
          [change (2 ^ 52)%Z with 4503599627370496%Z in Hn;
           change (2 ^ 53)%Z with 9007199254740992%Z; lia |].
        rewrite Prim2SF_SF2Prim by exact Hv. cbn [SF_value].
        eexists. split; [reflexivity |].
        apply SF_value_integer; [exact He' | exact Hm'].
      * cbn [binary_normalize].
        destruct (binary_round_integer true p) as (m' & e' & -> & Hv & He' & Hm');
          [change (2 ^ 52)%Z with 4503599627370496%Z in Hn;
           change (2 ^ 53)%Z with 9007199254740992%Z; lia |].
        rewrite Prim2SF_SF2Prim by exact Hv. cbn [SF_value].
        eexists. split; [reflexivity |].
        apply SF_value_integer; [exact He' |]. cbn [cond_Zopp]. lia.
Qed.

(** ** Weight and height *)

Section Comparisons.
Variable show : float -> string.

Lemma compareWeights_lighter (this animal : Animal_t) :
  (weight this <? weight animal)%float = true ->
  compareWeights show this animal =
    "At " +:+ show (weight this) +:+ " lbs, I am about " +:+
    percent show (100 * (weight animal - weight this) / weight animal) +:+
    "% lighter than you".
Proof.
  intros H. unfold compareWeights. cbv zeta.
  rewrite sub_positive, H. reflexivity.
Qed.

Lemma compareWeights_heavier (this animal : Animal_t) :
  (weight animal <? weight this)%float = true ->
  compareWeights show this animal =
    "At " +:+ show (weight this) +:+ " lbs, I am about " +:+
    percent show (100 * (weight this - weight animal) / weight animal) +:+
    "% heavier than you".
Proof.
  intros H. unfold compareWeights. cbv zeta.
  rewrite sub_positive, (ltb_asym _ _ H), sub_negative, H. reflexivity.
Qed.

Lemma compareWeights_same (this animal : Animal_t) :
  (weight this <? weight animal)%float = false ->
  (weight animal <? weight this)%float = false ->
  compareWeights show this animal = "We have the exact same weight!".
Proof.
  intros H1 H2. unfold compareWeights. cbv zeta.
  rewrite sub_positive, H1, sub_negative, H2. reflexivity.
Qed.

End Comparisons.

(** C2.  [compareWeights] called on [A] with argument [B]: when [A] is
    lighter, the message gives the weight of [A] and the percentage
    [round(100 * (B.weight - A.weight) / B.weight)]; when [A] is heavier,
    the percentage is [round(100 * (A.weight - B.weight) / B.weight)],
    again over the weight of [B]; on equal weights both orders of the
    call give the same-weight message.  The weights are doubles and the
    quotient is the one double arithmetic gives.  [round] is rounding
    half up to the nearest integer: on a number that has a value it
    gives the one integer [n] with [n - 1/2 <= value < n + 1/2], and it
    gives back a number that has none (an infinity, NaN). *)
Theorem compareWeights_spec (show : float -> string) (A B : Animal_t) :
  ((weight A <? weight B)%float = true ->
     compareWeights show A B =
       "At " +:+ show (weight A) +:+ " lbs, I am about " +:+
       show (Math_round_double (100 * (weight B - weight A) / weight B))
       +:+ "% lighter than you") /\
  ((weight B <? weight A)%float = true ->
     compareWeights show A B =
       "At " +:+ show (weight A) +:+ " lbs, I am about " +:+
       show (Math_round_double (100 * (weight A - weight B) / weight B))
       +:+ "% heavier than you") /\
  ((weight A =? weight B)%float = true ->
     compareWeights show A B = "We have the exact same weight!" /\
     compareWeights show B A = "We have the exact same weight!") /\
  (forall (x : float) (q : Q),
     value_of x = Some q ->
     exists (n : Z) (q' : Q),
       round_half_up q n /\
       value_of (Math_round_double x) = Some q' /\ (q' == inject_Z n)%Q) /\
  (forall (q : Q) (n : Z), round_half_up q n -> n = Math_round q) /\
  (forall x : float, value_of x = None -> Math_round_double x = x).
Proof.
  split; [| split; [| split; [| split; [| split]]]].
  - apply compareWeights_lighter.
  - apply compareWeights_heavier.
  - intros E. destruct (eqb_not_ltb _ _ E) as [H1 H2].
    split; apply compareWeights_same; assumption.
  - intros x q Hq.
    destruct (Math_round_double_value x q Hq) as (q' & Hq' & E).
    exists (Math_round q), q'.
    split; [apply Math_round_half_up; reflexivity |].
    split; [exact Hq' | exact E].
  - intros q n H. symmetry. apply Math_round_half_up. exact H.
  - intros x. unfold value_of, Math_round_double.
    destruct (Prim2SF x); cbn [SF_value]; try discriminate; reflexivity.
Qed.

Lemma compareWeights_spec_witness :
  (weight ann <? weight trex)%float = true /\
  compareWeights Number_toString_int ann trex =
    "At 120 lbs, I am about 99% lighter than you" /\
  compareWeights Number_toString_int trex ann =
    "At 13400 lbs, I am about 11067% heavier than you" /\
  (weight ann =? weight ann)%float = true /\
  compareWeights Number_toString_int ann ann =
    "We have the exact same weight!" /\
  (weight sparrow <? weight ann)%float = true /\
  (forall show : float -> string,
     compareWeights show sparrow ann =
       "At " +:+ show 41.4%float +:+ " lbs, I am about " +:+ show 65%float
       +:+ "% lighter than you") /\
  (weight weightless <? weight ann)%float = true /\
  compareWeights Number_toString_int ann weightless =
    "At 120 lbs, I am about Infinity% heavier than you".
Proof.
  assert ((weight ann <? weight trex)%float = true) as Hlt
    by (vm_compute; reflexivity).
  assert ((weight ann =? weight ann)%float = true) as Heq
    by (vm_compute; reflexivity).
  assert ((weight sparrow <? weight ann)%float = true) as Hsp
    by (vm_compute; reflexivity).
  assert ((weight weightless <? weight ann)%float = true) as Hw
    by (vm_compute; reflexivity).
  destruct (compareWeights_spec Number_toString_int ann trex) as (Hl & _).
  destruct (compareWeights_spec Number_toString_int trex ann) as (_ & Hh & _).
  destruct (compareWeights_spec Number_toString_int ann ann)
    as (_ & _ & Hs & _).
  destruct (compareWeights_spec Number_toString_int ann weightless)
    as (_ & Hi & _).
  split; [exact Hlt |].
  split; [rewrite (Hl Hlt); vm_compute; reflexivity |].
  split; [rewrite (Hh Hlt); vm_compute; reflexivity |].
  split; [exact Heq |].
  split; [exact (proj1 (Hs Heq)) |].
  split; [exact Hsp |].
  split.
  - intros show.
    rewrite (proj1 (compareWeights_spec show sparrow ann) Hsp).
    reflexivity.
  - split; [exact Hw |]. rewrite (Hi Hw). vm_compute. reflexivity.
Defined.

(** ** Decimal formatting *)

Lemma all_digits_app (a b : string) :
  all_digits (a +:+ b) = all_digits a && all_digits b.
Proof.
  induction a as [| c a IH]; simpl; [reflexivity |].
  rewrite IH. apply andb_assoc.
Qed.

Lemma string_length_app (a b : string) :
  String.length (a +:+ b) = (String.length a + String.length b)%nat.
Proof. induction a as [| c a IH]; simpl; [reflexivity | now rewrite IH]. Qed.

Lemma is_digit_digit (d : Z) : (0 <= d < 10)%Z -> is_digit (digit d) = true.
Proof.
  intros H.
  assert (d = 0 \/ d = 1 \/ d = 2 \/ d = 3 \/ d = 4 \/ d = 5 \/ d = 6 \/
          d = 7 \/ d = 8 \/ d = 9)%Z as Hd by lia.
  repeat (destruct Hd as [-> | Hd]; [reflexivity |]). subst d. reflexivity.
Qed.

Lemma all_digits_string_of_uint (d : Decimal.uint) :
  all_digits (NilEmpty.string_of_uint d) = true.
Proof. induction d; simpl; auto. Qed.

Lemma all_digits_digits (n : Z) : all_digits (digits n) = true.
Proof. apply all_digits_string_of_uint. Qed.

Lemma digits_nonempty (n : Z) :
  exists c rest, digits n = String c rest /\ is_digit c = true.
Proof.
  unfold digits.
  assert (N.to_uint (Z.to_N n) <> Decimal.Nil) as Hnil.
  { destruct (Z.to_N n); simpl; [discriminate | apply DecimalPos.Unsigned.to_uint_nonnil]. }
  destruct (N.to_uint (Z.to_N n)); [congruence | ..];
    simpl; eexists; eexists; (split; [reflexivity | reflexivity]).
Qed.

Lemma frac_digits_length (f : nat) (r : Z) :
  String.length (frac_digits f r) = f.
Proof.
  revert r. induction f as [| f IH]; intros r; cbn [frac_digits];
    [reflexivity |].
  rewrite string_length_app, IH. cbn [String.length]. lia.
Qed.

Lemma frac_digits_all_digits (f : nat) (r : Z) :
  all_digits (frac_digits f r) = true.
Proof.
  revert r. induction f as [| f IH]; intros r; cbn [frac_digits];
    [reflexivity |].
  rewrite all_digits_app, IH. cbn [all_digits andb].
  rewrite is_digit_digit; [reflexivity |]. apply Z.mod_pos_bound. lia.
Qed.

Lemma digits_then_point_app (seen : bool) (D F : string) :
  all_digits D = true ->
  digits_then_point seen (D +:+ "." +:+ F) =
    if seen || negb (D =? "") then Some F else None.
Proof.
  revert seen. induction D as [| c D IH]; intros seen HD; simpl.
  - destruct seen; reflexivity.
  - simpl in HD. apply andb_prop in HD as [Hc HD].
    destruct (Ascii.eqb_spec c "."%char) as [-> | _]; [discriminate Hc |].
    rewrite Hc, (IH true HD). rewrite orb_true_r. reflexivity.
Qed.

(** With a positive number of digits, the digits of [toFixed] have
    exactly that many decimal places. *)
Lemma fixed_digits_format (x : Q) (f : nat) :
  fixed_format (S f) (fixed_digits x (S f)) = true.
Proof.
  unfold fixed_digits.
  set (n := Qfloor (Qabs x * inject_Z (10 ^ Z.of_nat (S f)) + (1 # 2))).
  set (a := (n / 10 ^ Z.of_nat (S f))%Z).
  set (F := frac_digits (S f) (n mod 10 ^ Z.of_nat (S f))).
  assert (digits_then_point false (digits a +:+ "." +:+ F) = Some F) as Hparse.
  { rewrite digits_then_point_app by apply all_digits_digits.
    destruct (digits_nonempty a) as (c & rest & -> & _). reflexivity. }
  assert (all_digits F && (String.length F =? S f)%nat = true) as HF.
  { unfold F. rewrite frac_digits_all_digits, frac_digits_length.
    rewrite Nat.eqb_refl. reflexivity. }
  unfold fixed_format.
  destruct (Qlt_le_dec x 0).
  - change ("-" +:+ digits a +:+ "." +:+ F)
      with (String "-"%char (digits a +:+ "." +:+ F)).
    cbn [Ascii.eqb Bool.eqb]. rewrite Hparse. exact HF.
  - change ("" +:+ digits a +:+ "." +:+ F) with (digits a +:+ "." +:+ F).
    destruct (digits_nonempty a) as (c & rest & E & Hc).
    rewrite E in Hparse |- *.
    change (String c rest +:+ "." +:+ F)
      with (String c (rest +:+ "." +:+ F)) in Hparse |- *.
    cbv beta iota zeta.
    destruct (Ascii.eqb_spec c "-"%char) as [-> | _]; [discriminate Hc |].
    rewrite Hparse. exact HF.
Qed.

(** Below 10^21 in magnitude, [toFixed] writes the digits of the value
    of its argument. *)
Lemma toFixed_below (show : float -> string) (x : float) (q : Q) (f : nat) :
  value_of x = Some q -> (Qabs q < inject_Z (10 ^ 21))%Q ->
  toFixed show x f = fixed_digits q f.
Proof.
  intros Hq Hsmall. unfold toFixed. rewrite Hq.
  destruct (Qlt_le_dec (Qabs q) (inject_Z (10 ^ 21))) as [_ | Hge];
    [reflexivity | exfalso; apply (Qlt_not_le _ _ Hsmall Hge)].
Qed.

Section Heights.
Variable show : float -> string.

Lemma compareHeights_smaller (this animal : Animal_t) :
  (height this <? height animal)%float = true ->
  compareHeights show this animal =
    "At " +:+ toFixed show (height this / 12) 2 +:+ " feet, I am about " +:+
    percent show (100 * (height animal - height this) / height animal) +:+
    "% smaller than you".
Proof.
  intros H. unfold compareHeights. cbv zeta.
  rewrite sub_positive, H. reflexivity.
Qed.

Lemma compareHeights_taller (this animal : Animal_t) :
  (height animal <? height this)%float = true ->
  compareHeights show this animal =
    "At " +:+ toFixed show (height this / 12) 2 +:+ " feet, I am about " +:+
    percent show (100 * (height this - height animal) / height animal) +:+
    "% taller than you".
Proof.
  intros H. unfold compareHeights. cbv zeta.
  rewrite sub_positive, (ltb_asym _ _ H), sub_negative, H. reflexivity.
Qed.

Lemma compareHeights_same (this animal : Animal_t) :
  (height this <? height animal)%float = false ->
  (height animal <? height this)%float = false ->
  compareHeights show this animal = "We have the exact same height!".
Proof.
  intros H1 H2. unfold compareHeights. cbv zeta.
  rewrite sub_positive, H1, sub_negative, H2. reflexivity.
Qed.

End Heights.

(** C3, as the code has it.  [compareHeights] called on [A] with
    argument [B]: when [A] is shorter, or taller, the message shows
    [(A.height / 12).toFixed(2)] and the percentage
    [round(100 * |B.height - A.height| / B.height)] on the raw inches,
    in double arithmetic, with the word smaller, or taller.  When
    neither height is below the other the message is the same-height
    one: so it is for equal heights, and also when a height is NaN.
    The height shown has exactly two decimal places, those of the
    value of [A.height / 12] rounded half up in the third place,
    whenever this value is below 10^21 in magnitude; from 10^21 on it
    is the sign and what [Number::toString] prints for the magnitude,
    and for a number that is not finite it is what [Number::toString]
    prints. *)
Theorem compareHeights_spec (show : float -> string) (A B : Animal_t) :
  ((height A <? height B)%float = true ->
     compareHeights show A B =
       "At " +:+ toFixed show (height A / 12) 2 +:+ " feet, I am about " +:+
       show (Math_round_double
               (100 * abs (height B - height A) / height B))
       +:+ "% smaller than you") /\
  ((height B <? height A)%float = true ->
     compareHeights show A B =
       "At " +:+ toFixed show (height A / 12) 2 +:+ " feet, I am about " +:+
       show (Math_round_double
               (100 * abs (height B - height A) / height B))
       +:+ "% taller than you") /\
  ((height A <? height B)%float = false ->
   (height B <? height A)%float = false ->
     compareHeights show A B = "We have the exact same height!") /\
  ((height A =? height B)%float = true ->
     compareHeights show A B = "We have the exact same height!") /\
  (forall q : Q,
     value_of (height A / 12) = Some q ->
     (Qabs q < inject_Z (10 ^ 21))%Q ->
     toFixed show (height A / 12) 2 = fixed_digits q 2 /\
     fixed_format 2 (toFixed show (height A / 12) 2) = true) /\
  (forall q : Q,
     value_of (height A / 12) = Some q ->
     (inject_Z (10 ^ 21) <= Qabs q)%Q ->
     toFixed show (height A / 12) 2 =
       (if Qlt_le_dec q 0 then "-" else "") +:+
       show (abs (height A / 12))) /\
  (value_of (height A / 12) = None ->
     toFixed show (height A / 12) 2 = show (height A / 12)%float).
Proof.
  split; [| split; [| split; [| split; [| split; [| split]]]]].
  - intros H. rewrite compareHeights_smaller by exact H.
    rewrite (abs_sub_lt _ _ H). reflexivity.
  - intros H. rewrite compareHeights_taller by exact H.
    rewrite (abs_sub_gt _ _ H). reflexivity.
  - apply compareHeights_same.
  - intros E. destruct (eqb_not_ltb _ _ E) as [H1 H2].
    apply compareHeights_same; assumption.
  - intros q Hq Hsmall. rewrite (toFixed_below show _ q 2 Hq Hsmall).
    split; [reflexivity | apply fixed_digits_format].
  - intros q Hq Hbig. unfold toFixed. rewrite Hq.
    destruct (Qlt_le_dec (Qabs q) (inject_Z (10 ^ 21))) as [Hlt | _];
      [exfalso; apply (Qlt_not_le _ _ Hlt Hbig) | reflexivity].
  - intros Hq. unfold toFixed. rewrite Hq. reflexivity.
Qed.

Lemma compareHeights_spec_witness :
  (height ann <? height trex)%float = true /\
  compareHeights Number_toString_int ann trex =
    "At 5.42 feet, I am about 55% smaller than you" /\
  compareHeights Number_toString_int trex ann =
    "At 12.00 feet, I am about 122% taller than you" /\
  (height sparrow <? height ann)%float = true /\
  compareHeights Number_toString_int sparrow ann =
    "At 1.07 feet, I am about 80% smaller than you" /\
  (height ann =? height ann)%float = true /\
  compareHeights Number_toString_int ann ann =
    "We have the exact same height!" /\
  (exists q : Q,
     value_of (height ann / 12) = Some q /\
     (Qabs q < inject_Z (10 ^ 21))%Q /\
     fixed_format 2 (toFixed Number_toString_int (height ann / 12) 2) = true).
Proof.
  assert ((height ann <? height trex)%float = true) as Hlt
    by (vm_compute; reflexivity).
  assert ((height sparrow <? height ann)%float = true) as Hsp
    by (vm_compute; reflexivity).
  assert ((height ann =? height ann)%float = true) as Heq
    by (vm_compute; reflexivity).
  destruct (compareHeights_spec Number_toString_int ann trex)
    as (Hs & _ & _ & _ & Hf & _).
  destruct (compareHeights_spec Number_toString_int trex ann) as (_ & Ht & _).
  destruct (compareHeights_spec Number_toString_int sparrow ann)
    as (Hs' & _).
  destruct (compareHeights_spec Number_toString_int ann ann)
    as (_ & _ & _ & He & _).
  split; [exact Hlt |].
  split; [rewrite (Hs Hlt); vm_compute; reflexivity |].
  split; [rewrite (Ht Hlt); vm_compute; reflexivity |].
  split; [exact Hsp |].
  split; [rewrite (Hs' Hsp); vm_compute; reflexivity |].
  split; [exact Heq |].
  split; [exact (He Heq) |].
  destruct (value_of (height ann / 12)) as [q |] eqn:Hq;
    [| vm_compute in Hq; discriminate Hq].
  assert (Qabs q < inject_Z (10 ^ 21))%Q as Hsmall
    by (vm_compute in Hq; injection Hq as <-; vm_compute; reflexivity).
  exists q. split; [reflexivity |].
  split; [exact Hsmall | exact (proj2 (Hf q eq_refl Hsmall))].
Defined.

(** C3, as stated, fails.  A height of twelve times 10^21 inches is
    10^21 feet, and from there on [toFixed] hands the number to
    [Number::toString] (which prints [1e+21]): the height shown is
    whatever that conversion prints, and the statement that every shown
    height has two decimal places is false.  And a height that is NaN
    (what the form gives when a field is left empty) differs from every
    height, yet the message is the same-height one. *)
Lemma compareHeights_display_not_fixed :
  (height inchling <? height colossus)%float = true /\
  value_of (height colossus / 12) = Some (inject_Z (10 ^ 21)) /\
  (forall show : float -> string,
     toFixed show (height colossus / 12) 2 = show 1e21%float /\
     compareHeights show colossus inchling =
       "At " +:+ show 1e21%float +:+ " feet, I am about " +:+
       show (Math_round_double
               (100 * (height colossus - height inchling) / height inchling))
       +:+ "% taller than you") /\
  ~ (forall (show : float -> string) (A B : Animal_t),
       (height A =? height B)%float = false ->
       fixed_format 2 (toFixed show (height A / 12) 2) = true) /\
  (height unmeasured =? height inchling)%float = false /\
  (forall show : float -> string,
     compareHeights show unmeasured inchling =
       "We have the exact same height!" /\
     compareHeights show inchling unmeasured =
       "We have the exact same height!").
Proof.
  split; [vm_compute; reflexivity |].
  split; [vm_compute; reflexivity |].
  split; [intros show; split; reflexivity |].
  split.
  - intros H.
    specialize (H (fun _ => "1e+21") colossus inchling eq_refl).
    vm_compute in H. discriminate H.
  - split; [vm_compute; reflexivity |].
    intros show. split; reflexivity.
Qed.

(** ** Diet *)

Lemma compareDiet_cases (this animal : Animal_t) :
  compareDiet this animal =
    if bool_decide (diet this <> "herbivore" /\ diet animal = "herbivore")
    then "Really, you don't eat meat ?"
    else if bool_decide (diet this = "herbivore" /\ diet animal <> "herbivore")
    then "I think you shouldn't eat meat, you know."
    else if bool_decide (diet this <> "carnivore" /\ diet animal = "carnivore")
    then "I think you should try some vegetables, you know !"
    else if bool_decide (diet this = "carnivore" /\ diet animal <> "carnivore")
    then "Why do you waste your appetite on vegetables ?"
    else "We like the same food !".
Proof.
  unfold compareDiet.
  destruct (String.eqb_spec (diet this) "herbivore") as [Hth | Hth],
           (String.eqb_spec (diet animal) "herbivore") as [Hah | Hah],
           (String.eqb_spec (diet this) "carnivore") as [Htc | Htc],
           (String.eqb_spec (diet animal) "carnivore") as [Hac | Hac];
    cbn [negb andb];
    repeat (case_bool_decide; try tauto); try reflexivity.
Qed.

(** C6.  [compareDiet] called on [A] with argument [B] tests four
    conditions in order and answers with the message of the first one
    that holds; when none holds, and in particular when the two diets
    are equal (two omnivores included), it answers with the same-food
    message. *)
Theorem compareDiet_spec (A B : Animal_t) :
  let c1 := diet A <> "herbivore" /\ diet B = "herbivore" in
  let c2 := diet A = "herbivore" /\ diet B <> "herbivore" in
  let c3 := diet A <> "carnivore" /\ diet B = "carnivore" in
  let c4 := diet A = "carnivore" /\ diet B <> "carnivore" in
  (c1 -> compareDiet A B = "Really, you don't eat meat ?") /\
  (~ c1 -> c2 ->
     compareDiet A B = "I think you shouldn't eat meat, you know.") /\
  (~ c1 -> ~ c2 -> c3 ->
     compareDiet A B = "I think you should try some vegetables, you know !") /\
  (~ c1 -> ~ c2 -> ~ c3 -> c4 ->
     compareDiet A B = "Why do you waste your appetite on vegetables ?") /\
  (~ c1 -> ~ c2 -> ~ c3 -> ~ c4 ->
     compareDiet A B = "We like the same food !") /\
  (diet A = diet B -> compareDiet A B = "We like the same food !") /\
  (diet A = "omnivore" -> diet B = "omnivore" ->
     compareDiet A B = "We like the same food !").
Proof.
  intros c1 c2 c3 c4. subst c1 c2 c3 c4. rewrite compareDiet_cases.
  repeat split; intros; repeat (case_bool_decide; try tauto);
    try reflexivity; exfalso; intuition congruence.
Qed.

Lemma compareDiet_spec_witness :
  compareDiet ann pigeon = "Really, you don't eat meat ?" /\
  compareDiet pigeon ann = "I think you shouldn't eat meat, you know." /\
  compareDiet ann trex = "I think you should try some vegetables, you know !" /\
  compareDiet trex ann = "Why do you waste your appetite on vegetables ?" /\
  compareDiet ann ann = "We like the same food !".
Proof.
  destruct (compareDiet_spec ann pigeon) as (H1 & _).
  destruct (compareDiet_spec pigeon ann) as (_ & H2 & _).
  destruct (compareDiet_spec ann trex) as (_ & _ & H3 & _).
  destruct (compareDiet_spec trex ann) as (_ & _ & _ & H4 & _).
  destruct (compareDiet_spec ann ann) as (_ & _ & _ & _ & _ & _ & H5).
  split; [apply H1; split; [discriminate | reflexivity] |].
  split; [apply H2; [intros [H _]; apply H; reflexivity
                    | split; [reflexivity | discriminate]] |].
  split; [apply H3; [intros [_ H]; discriminate H | intros [H _]; discriminate H
                    | split; [discriminate | reflexivity]] |].
  split; [apply H4; [intros [_ H]; discriminate H | intros [H _]; discriminate H
                    | intros [H _]; apply H; reflexivity
                    | split; [reflexivity | discriminate]] |].
  apply H5; reflexivity.
Defined.

(** C7.  Swapping the two animals exchanges the first message with the
    second and the third with the fourth; and whenever exactly one of
    the two is a herbivore, or exactly one is a carnivore, the two
    orders of the call produce the two messages of one such pair. *)
Theorem compareDiet_swap (A B : Animal_t) :
  (compareDiet A B = "Really, you don't eat meat ?" <->
   compareDiet B A = "I think you shouldn't eat meat, you know.") /\
  (compareDiet A B = "I think you shouldn't eat meat, you know." <->
   compareDiet B A = "Really, you don't eat meat ?") /\
  (compareDiet A B = "I think you should try some vegetables, you know !" <->
   compareDiet B A = "Why do you waste your appetite on vegetables ?") /\
  (compareDiet A B = "Why do you waste your appetite on vegetables ?" <->
   compareDiet B A = "I think you should try some vegetables, you know !") /\
  (((diet A = "herbivore" /\ diet B <> "herbivore") \/
    (diet A <> "herbivore" /\ diet B = "herbivore") \/
    (diet A = "carnivore" /\ diet B <> "carnivore") \/
    (diet A <> "carnivore" /\ diet B = "carnivore")) ->
   (compareDiet A B = "Really, you don't eat meat ?" /\
    compareDiet B A = "I think you shouldn't eat meat, you know.") \/
   (compareDiet A B = "I think you shouldn't eat meat, you know." /\
    compareDiet B A = "Really, you don't eat meat ?") \/
   (compareDiet A B = "I think you should try some vegetables, you know !" /\
    compareDiet B A = "Why do you waste your appetite on vegetables ?") \/
   (compareDiet A B = "Why do you waste your appetite on vegetables ?" /\
    compareDiet B A = "I think you should try some vegetables, you know !")).
Proof.
  unfold compareDiet.
  destruct (String.eqb_spec (diet A) "herbivore") as [Hah | Hah],
           (String.eqb_spec (diet B) "herbivore") as [Hbh | Hbh],
           (String.eqb_spec (diet A) "carnivore") as [Hac | Hac],
           (String.eqb_spec (diet B) "carnivore") as [Hbc | Hbc];
    cbn [negb andb];
    try (exfalso; congruence);
    (repeat split; try discriminate; try reflexivity;
     intros Hd; try discriminate Hd;
     try (exfalso; clear - Hd Hah Hbh Hac Hbc; tauto);
     auto 8).
Qed.

Lemma compareDiet_swap_witness :
  compareDiet pigeon trex = "I think you shouldn't eat meat, you know." /\
  compareDiet trex pigeon = "Really, you don't eat meat ?" /\
  ((compareDiet ann trex = "Really, you don't eat meat ?" /\
    compareDiet trex ann = "I think you shouldn't eat meat, you know.") \/
   (compareDiet ann trex = "I think you shouldn't eat meat, you know." /\
    compareDiet trex ann = "Really, you don't eat meat ?") \/
   (compareDiet ann trex = "I think you should try some vegetables, you know !" /\
    compareDiet trex ann = "Why do you waste your appetite on vegetables ?") \/
   (compareDiet ann trex = "Why do you waste your appetite on vegetables ?" /\
    compareDiet trex ann = "I think you should try some vegetables, you know !")).
Proof.
  destruct (compareDiet_swap pigeon trex) as (_ & H21 & _).
  destruct (compareDiet_swap ann trex) as (_ & _ & _ & _ & H5).
  assert (compareDiet pigeon trex = "I think you shouldn't eat meat, you know.")
    as E by reflexivity.
  split; [exact E |].
  split; [exact (proj1 H21 E) |].
  apply H5. right. right. right. split; [discriminate | reflexivity].
Defined.

(** ** Tiles *)

Lemma generateTileHTML_render (c : string) (f i : option string) :
  generateTileHTML c f i =
    render {| caption := c; body := default "" f;
              image_name := default c (truthy i) |}.
Proof.
  unfold generateTileHTML, render.
  destruct f as [[| a f] |]; reflexivity.
Qed.

Lemma getTileHTML_human show random human s :
  getTileHTML show random human [] s = (Ret (render (human_tile human)), s).
Proof. reflexivity. Qed.

Lemma getTileHTML_sentinel show random human other s :
  species other = "Pigeon" ->
  getTileHTML show random human [Some other] s =
    (Ret (render (sentinel_tile other)), s).
Proof.
  intros Hsp. unfold getTileHTML. rewrite Hsp. cbn [String.eqb Ascii.eqb Bool.eqb].
  rewrite generateTileHTML_render. reflexivity.
Qed.

(** C8.  Called with the human alone, [getTileHTML] returns the tile
    with the human's name as caption, no body and the image named
    human, and its markup has no paragraph element at all.  Called with
    a dinosaur of species Pigeon, it returns the tile with caption
    Pigeon and the dinosaur's fact as body; no random number is drawn,
    and the result depends on neither the human nor the comparisons. *)
Theorem getTileHTML_human_and_sentinel show random human s :
  getTileHTML show random human [] s = (Ret (render (human_tile human)), s) /\
  render (human_tile human) =
    "<div class=" +:+ dquote +:+ "grid-item" +:+ dquote +:+ ">" +:+ newline +:+
    "                <h3>" +:+ name human +:+ "</h3>" +:+ newline +:+
    "                <img src=" +:+ dquote +:+ "images/human.png" +:+ dquote +:+
      " alt=" +:+ dquote +:+ name human +:+ " image" +:+ dquote +:+ "/>" +:+
      newline +:+
    "                " +:+ newline +:+
    "            </div>" /\
  (forall other : Dino_t,
     species other = "Pigeon" ->
     getTileHTML show random human [Some other] s =
       (Ret (render {| caption := "Pigeon"; body := fact other;
                       image_name := "Pigeon" |}), s) /\
     forall show' random' human',
       getTileHTML show' random' human' [Some other] s =
       getTileHTML show random human [Some other] s).
Proof.
  split; [apply getTileHTML_human |].
  split; [reflexivity |].
  intros other Hsp. split.
  - apply getTileHTML_sentinel. exact Hsp.
  - intros show' random' human'.
    rewrite !getTileHTML_sentinel by exact Hsp. reflexivity.
Qed.

Lemma getTileHTML_human_and_sentinel_witness :
  species pigeon = "Pigeon" /\
  getTileHTML Number_toString_int (fun _ => 0%Q) ann [Some pigeon]
    (State "" 0) =
    (Ret (render {| caption := "Pigeon";
                    body := "All birds are living dinosaurs.";
                    image_name := "Pigeon" |}), State "" 0).
Proof.
  split; [reflexivity |].
  destruct (getTileHTML_human_and_sentinel Number_toString_int
              (fun _ => 0%Q) ann (State "" 0)) as (_ & _ & Hp).
  exact (proj1 (Hp pigeon eq_refl)).
Defined.

(** ** The grid *)

Lemma string_app_assoc (a b c : string) : (a +:+ b) +:+ c = a +:+ b +:+ c.
Proof.
  induction a as [| x a IH]; [reflexivity |].
  exact (f_equal (String x) IH).
Qed.

Lemma index_candidate {A} (l : list A) (i : Z) :
  (0 <= i < Z.of_nat (length l))%Z -> exists x, index l i = Some x /\ In x l.
Proof.
  intros Hi. unfold index.
  destruct (Z.ltb_spec i 0) as [Hneg | _]; [lia |].
  destruct (l !! Z.to_nat i) as [x |] eqn:E.
  - exists x. split; [reflexivity |].
    apply list_elem_of_In. eapply list_elem_of_lookup_2. exact E.
  - apply lookup_ge_None in E. lia.
Qed.

(** One dinosaur tile: the markup is admissible, the grid is untouched
    and at most one random number is consumed. *)
Lemma getTileHTML_dino_tile show random human other s :
  (0 <= random (random_calls s) /\ random (random_calls s) < 1)%Q ->
  exists t,
    dino_tile show human other t /\
    getTileHTML show random human [Some other] s =
      (Ret t, {| grid_innerHTML := grid_innerHTML s;
                 random_calls :=
                   random_calls s +
                   (if species other =? "Pigeon" then 0 else 1) |}).
Proof.
  intros [Hu0 Hu1]. unfold dino_tile.
  destruct (species other =? "Pigeon") eqn:Hsp.
  - exists (render (sentinel_tile other)). split; [reflexivity |].
    rewrite getTileHTML_sentinel by (apply String.eqb_eq; exact Hsp).
    destruct s as [g n]. cbn. rewrite Nat.add_0_r. reflexivity.
  - rewrite getTileHTML_dinosaur by exact Hsp.
    destruct (index_candidate (facts show human other)
                (Math_round (random (random_calls s) * 5))) as (b & Hb & Hin).
    { change (Z.of_nat (length (facts show human other))) with 6%Z.
      pose proof (Math_round_range (random (random_calls s) * 5) 0 5) as Hr.
      unfold inject_Z in Hr. assert (0 <= Math_round (random (random_calls s) * 5) <= 5)%Z
        by (apply Hr; lra). lia. }
    exists (render {| caption := species other; body := b;
                      image_name := species other |}).
    split; [exists b; split; [exact Hin | reflexivity] |].
    rewrite Hb, generateTileHTML_render. cbn [default truthy].
    rewrite Nat.add_1_r. reflexivity.
Qed.

(** The body of both loops of [addTiles], at a dinosaur that exists. *)
Lemma addTiles_step show random human other s :
  (0 <= random (random_calls s) /\ random (random_calls s) < 1)%Q ->
  exists t,
    dino_tile show human other t /\
    (let! tile := getTileHTML show random human [Some other] in
     append_innerHTML tile) s =
      (Ret tt, {| grid_innerHTML := grid_innerHTML s +:+ t;
                  random_calls :=
                    random_calls s +
                    (if species other =? "Pigeon" then 0 else 1) |}).
Proof.
  intros Hu.
  destruct (getTileHTML_dino_tile show random human other s Hu)
    as (t & Ht & E).
  exists t. split; [exact Ht |].
  unfold bind. rewrite E. reflexivity.
Qed.

Lemma bind_run {A B} (c : M A) (k : A -> M B) (s s1 : state) (a : A) :
  c s = (Ret a, s1) -> bind c k s = k a s1.
Proof. intros E. unfold bind. rewrite E. reflexivity. Qed.

Lemma for_run (from count : nat) (body : nat -> M unit) (s s1 : state) :
  body from s = (Ret tt, s1) ->
  for_ from (S count) body s = for_ (S from) count body s1.
Proof.
  intros E. cbn [for_].
  exact (bind_run (body from) (fun _ => for_ (S from) count body) s s1 tt E).
Qed.

Lemma length_filter_cons (d : Dino_t) (l : list Dino_t) :
  length (List.filter (fun d => negb (species d =? "Pigeon")) (d :: l)) =
  (if species d =? "Pigeon" then 0 else 1) +
  length (List.filter (fun d => negb (species d =? "Pigeon")) l).
Proof. cbn [List.filter]. destruct (species d =? "Pigeon"); reflexivity. Qed.

Ltac next_tile show random human d Hrandom E t Ht E' :=
  lazymatch type of E with
  | _ = (_, ?s1) =>
      destruct (addTiles_step show random human d s1 (Hrandom _))
        as (t & Ht & E');
      cbn [grid_innerHTML random_calls] in E'
  end.

(** C9.  For eight dinosaurs, [addTiles] appends nine tiles to the grid:
    those of dinosaurs 0 to 3, the tile of the human, then those of
    dinosaurs 4 to 7.  The tile of a dinosaur of species Pigeon carries
    its fact verbatim; the tile of any other dinosaur carries one of its
    six candidate facts.  Each such tile consumes one random number of
    its own. *)
Theorem addTiles_spec show random (dinos : list Dino_t) human s :
  length dinos = 8%nat ->
  (forall n : nat, (0 <= random n /\ random n < 1)%Q) ->
  exists t0 t1 t2 t3 t4 t5 t6 t7 : string,
    Forall2 (dino_tile show human) dinos [t0; t1; t2; t3; t4; t5; t6; t7] /\
    addTiles show random dinos human s =
      (Ret tt,
       {| grid_innerHTML :=
            grid_innerHTML s +:+
            String.concat ""
              [t0; t1; t2; t3; render (human_tile human); t4; t5; t6; t7];
          random_calls :=
            random_calls s +
            length (List.filter (fun d => negb (species d =? "Pigeon"))
                      dinos) |}).
Proof.
  intros Hlen Hrandom.
  destruct dinos as [| d0 [| d1 [| d2 [| d3 [| d4 [| d5 [| d6 [| d7 [| ]]]]]]]]];
    try discriminate Hlen. clear Hlen.
  destruct (addTiles_step show random human d0 s (Hrandom _))
    as (t0 & Ht0 & E0).
  next_tile show random human d1 Hrandom E0 t1 Ht1 E1.
  next_tile show random human d2 Hrandom E1 t2 Ht2 E2.
  next_tile show random human d3 Hrandom E2 t3 Ht3 E3.
  match type of E3 with
  | _ = (_, ?s4) =>
      pose proof (eq_refl :
        append_innerHTML (render (human_tile human)) s4 =
        (Ret tt, {| grid_innerHTML :=
                      grid_innerHTML s4 +:+ render (human_tile human);
                    random_calls := random_calls s4 |})) as Eh
  end.
  cbn [grid_innerHTML random_calls] in Eh.
  next_tile show random human d4 Hrandom Eh t4 Ht4 E4.
  next_tile show random human d5 Hrandom E4 t5 Ht5 E5.
  next_tile show random human d6 Hrandom E5 t6 Ht6 E6.
  next_tile show random human d7 Hrandom E6 t7 Ht7 E7.
  exists t0, t1, t2, t3, t4, t5, t6, t7.
  split; [repeat (constructor; [assumption |]); constructor |].
  unfold addTiles.
  set (body := fun i : nat =>
         let! tile := getTileHTML show random human
                        [[d0; d1; d2; d3; d4; d5; d6; d7] !! i]
         in append_innerHTML tile).
  rewrite (bind_run _ _ _ _ tt
             (eq_trans (for_run 0 3 body _ _ E0)
             (eq_trans (for_run 1 2 body _ _ E1)
             (eq_trans (for_run 2 1 body _ _ E2)
                       (for_run 3 0 body _ _ E3))))).
  rewrite (bind_run _ _ _ _ _ (getTileHTML_human show random human _)).
  rewrite (bind_run _ _ _ _ _ Eh).
  rewrite (for_run 4 3 body _ _ E4), (for_run 5 2 body _ _ E5),
          (for_run 6 1 body _ _ E6), (for_run 7 0 body _ _ E7).
  cbn [for_ ret grid_innerHTML random_calls append_innerHTML].
  f_equal. f_equal.
  - cbn [String.concat]. rewrite !string_app_assoc. reflexivity.
  - rewrite !length_filter_cons. cbn [List.filter length]. lia.
Qed.

Lemma addTiles_spec_witness :
  length eight_dinos = 8%nat /\
  (forall n : nat, (0 <= (fun _ : nat => 1 # 2) n /\
                    (fun _ : nat => 1 # 2) n < 1)%Q) /\
  exists t0 t1 t2 t3 t4 t5 t6 t7 : string,
    Forall2 (dino_tile Number_toString_int ann) eight_dinos
      [t0; t1; t2; t3; t4; t5; t6; t7] /\
    addTiles Number_toString_int (fun _ => 1 # 2) eight_dinos ann
      (State "" 0) =
      (Ret tt,
       State (String.concat ""
                [t0; t1; t2; t3; render (human_tile ann); t4; t5; t6; t7])
             6).
Proof.
  assert (forall n : nat, (0 <= (fun _ : nat => 1 # 2) n /\
                           (fun _ : nat => 1 # 2) n < 1)%Q) as Hr
    by (intros n; split; [discriminate | reflexivity]).
  split; [reflexivity |]. split; [exact Hr |].
  exact (addTiles_spec Number_toString_int (fun _ => 1 # 2) eight_dinos ann
           (State "" 0) eq_refl Hr).
Defined.

(** ** Constructors *)

Lemma Animal_lookup (properties : object) (k : string) :
  own (Animal properties) !! k =
    if decide ("weight" = k) then Some (get properties "weight")
    else if decide ("height" = k) then Some (get properties "height")
    else if decide ("diet" = k) then Some (get properties "diet")
    else None.
Proof.
  unfold Animal, literal. cbn [own].
  rewrite !lookup_insert, lookup_empty. reflexivity.
Qed.

Lemma Human_lookup (properties : object) (k : string) :
  own (Human properties) !! k =
    if decide ("name" = k) then Some (get properties "name")
    else own (Animal (rest_of ["name"] properties)) !! k.
Proof.
  unfold Human, Object_assign, literal. cbn [own].
  rewrite lookup_union, lookup_singleton.
  destruct (decide ("name" = k));
    destruct (own (Animal _) !! k); reflexivity.
Qed.

Lemma rest_of_lookup (named : list string) (o : object) (k : string) :
  own (rest_of named o) !! k = if decide (k ∈ named) then None else own o !! k.
Proof.
  unfold rest_of, literal. cbn [own].
  induction named as [| x named IH]; cbn [foldr].
  - case_decide as Hk; [| reflexivity].
    apply elem_of_nil in Hk. contradiction.
  - rewrite lookup_delete, IH.
    repeat case_decide; try reflexivity; exfalso; set_unfold;
      intuition congruence.
Qed.

(** C10.  [Animal] and [Human] are total: for every object they return
    an object, whose own properties are exactly [weight], [height] and
    [diet], with [name] in addition for [Human]; each holds what reading
    the property gave (possibly [undefined]), and no other property of
    the input is present. *)
Theorem Animal_Human_fields (properties : object) :
  dom (own (Animal properties)) = ({["weight"; "height"; "diet"]} : gset string) /\
  dom (own (Human properties)) =
    ({["weight"; "height"; "diet"; "name"]} : gset string) /\
  own (Animal properties) !! "weight" = Some (get properties "weight") /\
  own (Animal properties) !! "height" = Some (get properties "height") /\
  own (Animal properties) !! "diet" = Some (get properties "diet") /\
  own (Human properties) !! "name" = Some (get properties "name") /\
  own (Human properties) !! "weight" =
    Some (default VUndefined (own properties !! "weight")) /\
  own (Human properties) !! "height" =
    Some (default VUndefined (own properties !! "height")) /\
  own (Human properties) !! "diet" =
    Some (default VUndefined (own properties !! "diet")) /\
  (forall k : string,
     k <> "weight" -> k <> "height" -> k <> "diet" ->
     own (Animal properties) !! k = None /\
     (k <> "name" -> own (Human properties) !! k = None)).
Proof.
  assert (forall k, k <> "name" ->
            get (rest_of ["name"] properties) k =
            default VUndefined (own properties !! k)) as Hrest.
  { intros k Hk. unfold get. rewrite rest_of_lookup.
    case_decide as Hin; [set_unfold; intuition congruence |].
    destruct (own properties !! k); reflexivity. }
  split; [| split].
  - unfold Animal, literal. cbn [own].
    rewrite !dom_insert_L, dom_empty_L. set_solver.
  - unfold Human, Object_assign, Animal, literal. cbn [own].
    rewrite dom_union_L, dom_singleton_L, !dom_insert_L, dom_empty_L.
    set_solver.
  - repeat split;
      rewrite ?Human_lookup, ?Animal_lookup;
      repeat (case_decide; try congruence);
      try reflexivity; try (rewrite Hrest by discriminate; reflexivity).
Qed.

Lemma Animal_Human_fields_witness :
  own (Human pigeon_record_extra) !! "colour" = None /\
  own (Human pigeon_record_extra) !! "name" = Some VUndefined.
Proof.
  destruct (Animal_Human_fields pigeon_record_extra)
    as (_ & _ & _ & _ & _ & Hname & _ & _ & _ & Hother).
  split.
  - apply (Hother "colour"); discriminate.
  - rewrite Hname. reflexivity.
Defined.



Lemma first_missing_None (expected : list string) (properties : object) :
  first_missing expected properties = None <->
  (forall f, In f expected -> is_Some (own properties !! f)).
Proof.
  induction expected as [| g expected IH]; cbn [first_missing].
  - split; [intros _ f [] | reflexivity].
  - unfold hasOwnProperty. case_bool_decide as Hg; cbn [negb].
    + rewrite IH. split.
      * intros H f [<- | Hf]; [exact Hg | apply H; exact Hf].
      * intros H f Hf. apply H. right. exact Hf.
    + split; [discriminate |].
      intros H. exfalso. apply Hg, H. left. reflexivity.
Qed.

(** The object a successful [Dino] returns. *)
Lemma Dino_returns (properties : object) :
  first_missing EXPECTED_PROPERTIES properties = None ->
  Dino properties =
    Ret (Object_assign
           (Animal (rest_of ["species"; "where"; "when"; "fact"] properties))
           (literal (<["species" := get properties "species"]>
                    (<["where" := get properties "where"]>
                    (<["when" := get properties "when"]>
                    (<["fact" := get properties "fact"]> ∅)))))).
Proof. intros Hnone. unfold Dino. rewrite Hnone. reflexivity. Qed.

Lemma own_get (properties : object) (k : string) :
  is_Some (own properties !! k) -> Some (get properties k) = own properties !! k.
Proof. intros [v Hv]. unfold get. rewrite Hv. reflexivity. Qed.

Lemma rest_get (named : list string) (properties : object) (k : string) :
  k ∉ named -> is_Some (own properties !! k) ->
  Some (get (rest_of named properties) k) = own properties !! k.
Proof.
  intros Hk [v Hv]. unfold get. rewrite rest_of_lookup.
  rewrite decide_False by exact Hk. rewrite Hv. reflexivity.
Qed.

Ltac absent_key Hk :=
  match goal with
  | |- context [decide (?a = ?k)] =>
      destruct (decide (a = k)) as [<- | _];
      [exfalso; apply Hk; cbn; tauto |]
  end.

Lemma Dino_complete (properties : object) :
  (forall f, In f EXPECTED_PROPERTIES -> is_Some (own properties !! f)) ->
  exists d,
    Dino properties = Ret d /\
    (forall f, In f EXPECTED_PROPERTIES -> own d !! f = own properties !! f) /\
    (forall k, ~ In k EXPECTED_PROPERTIES -> own d !! k = None).
Proof.
  intros Hall. eexists. split;
    [apply Dino_returns, first_missing_None; exact Hall |].
  unfold Object_assign, literal. cbn [own]. split.
  - intros f Hf. pose proof (Hall f Hf) as Hsome.
    rewrite lookup_union, !lookup_insert, lookup_empty, Animal_lookup.
    cbn in Hf.
    destruct Hf as [<- | [<- | [<- | [<- | [<- | [<- | [<- | []]]]]]]];
      cbn; first [ apply own_get; exact Hsome
                 | apply rest_get; [| exact Hsome];
                   set_unfold; intuition discriminate ].
  - intros k Hk.
    rewrite lookup_union, !lookup_insert, lookup_empty, Animal_lookup.
    repeat absent_key Hk. reflexivity.
Qed.

(** ** The grid, whatever the number of dinosaurs *)

Lemma string_app_nil_r (a : string) : a +:+ "" = a.
Proof.
  induction a as [| x a IH]; [reflexivity |].
  exact (f_equal (String x) IH).
Qed.

Lemma extends_refl (n : nat) (s : state) : extends n s s.
Proof.
  split; [exists ""; symmetry; apply string_app_nil_r | lia].
Qed.

Lemma extends_trans (n m : nat) (s0 s1 s2 : state) :
  extends n s0 s1 -> extends m s1 s2 -> extends (n + m) s0 s2.
Proof.
  intros [[a Ha] Hn] [[b Hb] Hm]. split; [| lia].
  exists (a +:+ b). rewrite Hb, Ha. apply string_app_assoc.
Qed.

Lemma extends_weaken (n m : nat) (s0 s : state) :
  (n <= m)%nat -> extends n s0 s -> extends m s0 s.
Proof. intros Hnm [Ha Hn]. split; [exact Ha | lia]. Qed.

Section Grid.
Variable show : float -> string.
Variable random : nat -> Q.
Variable dinos : list Dino_t.
Variable human : Human_t.

(** The body of the two loops of [addTiles]. *)
Let body : nat -> M unit := fun i =>
  let! tile := getTileHTML show random human [dinos !! i] in
  append_innerHTML tile.

Lemma body_defined (i : nat) (s : state) :
  (i < length dinos)%nat ->
  exists s', body i s = (Ret tt, s') /\ extends 1 s s'.
Proof.
  intros Hi. destruct (lookup_lt_is_Some_2 dinos i Hi) as [d Hd].
  unfold body. rewrite Hd. unfold bind, getTileHTML.
  destruct (species d =? "Pigeon").
  - eexists. split; [reflexivity |].
    split; [eexists; reflexivity | cbn; lia].
  - eexists. split; [reflexivity |].
    split; [eexists; reflexivity | cbn; lia].
Qed.

Lemma body_undefined (i : nat) (s : state) :
  (length dinos <= i)%nat -> body i s = (Throw TypeError, s).
Proof.
  intros Hi. unfold body. rewrite (lookup_ge_None_2 dinos i Hi). reflexivity.
Qed.

Lemma for_body (count from : nat) (s : state) :
  exists o s',
    for_ from count body s = (o, s') /\
    extends count s s' /\
    ((from + count <= length dinos)%nat -> o = Ret tt) /\
    ((length dinos < from + count)%nat -> (0 < count)%nat ->
     o = Throw TypeError).
Proof.
  revert from s. induction count as [| count IH]; intros from s.
  - exists (Ret tt), s. split; [reflexivity |].
    split; [apply extends_refl |]. split; [reflexivity | lia].
  - destruct (Nat.lt_ge_cases from (length dinos)) as [Hlt | Hge].
    + destruct (body_defined from s Hlt) as (s1 & Hbody & Hext).
      destruct (IH (S from) s1) as (o & s' & Hfor & Hext' & Hret & Hthrow).
      exists o, s'. split; [rewrite (for_run _ _ _ _ _ Hbody); exact Hfor |].
      split; [exact (extends_trans 1 count _ _ _ Hext Hext') |].
      split; [intros H; apply Hret; lia | intros H _; apply Hthrow; lia].
    + exists (Throw TypeError), s. split.
      * cbn [for_]. unfold bind. rewrite (body_undefined from s Hge).
        reflexivity.
      * split; [apply extends_refl |]. split; [lia | reflexivity].
Qed.

Lemma addTiles_outcome (s : state) :
  exists o s',
    addTiles show random dinos human s = (o, s') /\
    extends 8 s s' /\
    ((8 <= length dinos)%nat -> o = Ret tt) /\
    ((length dinos < 8)%nat -> o = Throw TypeError).
Proof.
  unfold addTiles. fold body.
  destruct (for_body 4 0 s) as (o1 & s1 & Hfor1 & Hext1 & Hret1 & Hthrow1).
  destruct (Nat.lt_ge_cases (length dinos) 4) as [Hshort | Hlong].
  - exists (Throw TypeError), s1.
    rewrite (Hthrow1 ltac:(lia) ltac:(lia)) in Hfor1.
    split; [unfold bind at 1; rewrite Hfor1; reflexivity |].
    split; [exact (extends_weaken 4 8 _ _ ltac:(lia) Hext1) |].
    split; [lia | reflexivity].
  - rewrite (Hret1 ltac:(lia)) in Hfor1.
    rewrite (bind_run _ _ _ _ _ Hfor1).
    rewrite (bind_run _ _ _ _ _ (getTileHTML_human show random human s1)).
    rewrite (bind_run _ _ _ _ tt
               (eq_refl : append_innerHTML (render (human_tile human)) s1 =
                          (Ret tt, _))).
    match goal with
    | |- context [for_ 4 4 body ?s2] =>
        destruct (for_body 4 4 s2)
          as (o2 & s3 & Hfor2 & Hext2 & Hret2 & Hthrow2);
        assert (extends 0 s1 s2) as Hhuman
          by (split; [eexists; reflexivity | cbn; lia])
    end.
    exists o2, s3. split; [exact Hfor2 |].
    split;
      [exact (extends_trans 4 4 _ _ _
                (extends_trans 4 0 _ _ _ Hext1 Hhuman) Hext2) |].
    split; [intros H; apply Hret2; lia | intros H; apply Hthrow2; lia].
Qed.

End Grid.

(** ** Exceptions *)






(** C5, as the code has it.  [Dino] succeeds on a record holding the
    seven required properties and more.  The additional properties
    reach only the rest object of the destructuring, next to [weight],
    [height] and [diet]; [Animal] copies these three alone, so the
    object returned has exactly the seven properties, with the values
    given, and none of the additional ones. *)
Theorem Dino_extras (properties : object) :
  (forall f, In f EXPECTED_PROPERTIES -> is_Some (own properties !! f)) ->
  exists d,
    Dino properties = Ret d /\
    dom (own d) = (list_to_set EXPECTED_PROPERTIES : gset string) /\
    (forall f, In f EXPECTED_PROPERTIES -> own d !! f = own properties !! f) /\
    (forall k, ~ In k EXPECTED_PROPERTIES ->
       own d !! k = None /\
       own (rest_of ["species"; "where"; "when"; "fact"] properties) !! k =
         own properties !! k).
Proof.
  intros Hall.
  destruct (Dino_complete properties Hall) as (d & Hd & Hf & Hk).
  exists d. split; [exact Hd |]. split; [| split; [exact Hf |]].
  - apply set_eq. intros k. rewrite elem_of_dom, elem_of_list_to_set.
    rewrite list_elem_of_In. split.
    + intros Hsome. destruct (In_dec string_dec k EXPECTED_PROPERTIES)
        as [Hin | Hnin]; [exact Hin |].
      rewrite (Hk k Hnin) in Hsome. destruct Hsome; discriminate.
    + intros Hin. rewrite (Hf k Hin). apply Hall. exact Hin.
  - intros k Hnin. split; [apply Hk; exact Hnin |].
    rewrite rest_of_lookup. case_decide as Hmem; [| reflexivity].
    exfalso. apply Hnin. set_unfold. cbn. intuition congruence.
Qed.

Lemma Dino_extras_witness :
  exists d,
    Dino pigeon_record_extra = Ret d /\
    own d !! "species" = Some (VString "Pigeon") /\
    own d !! "colour" = None /\
    own (rest_of ["species"; "where"; "when"; "fact"] pigeon_record_extra)
      !! "colour" = Some (VString "grey").
Proof.
  destruct (Dino_extras pigeon_record_extra) as (d & Hd & _ & Hf & Hk).
  { intros f Hf. cbn in Hf.
    destruct Hf as [<- | [<- | [<- | [<- | [<- | [<- | [<- | []]]]]]]];
      eexists; reflexivity. }
  assert (~ In "colour" EXPECTED_PROPERTIES) as Hnin
    by (cbn; intros H; decompose [or] H; discriminate || assumption).
  exists d. split; [exact Hd |].
  split; [rewrite Hf by (cbn; tauto); reflexivity |].
  destruct (Hk "colour" Hnin) as [Hnone Hrest].
  split; [exact Hnone | rewrite Hrest; reflexivity].
Defined.

(** C5, as stated, fails: the additional property of the record is not
    in the object that [Dino] returns. *)
Lemma Dino_extras_not_carried :
  (forall f, In f EXPECTED_PROPERTIES ->
             is_Some (own pigeon_record_extra !! f)) /\
  own pigeon_record_extra !! "colour" = Some (VString "grey") /\
  (exists d, Dino pigeon_record_extra = Ret d /\ own d !! "colour" = None) /\
  ~ (forall properties : object,
       (forall f, In f EXPECTED_PROPERTIES ->
                  is_Some (own properties !! f)) ->
       exists d, Dino properties = Ret d /\
                 forall k, ~ In k EXPECTED_PROPERTIES ->
                           own d !! k = own properties !! k).
Proof.
  assert (forall f, In f EXPECTED_PROPERTIES ->
                    is_Some (own pigeon_record_extra !! f)) as Hall.
  { intros f Hf. cbn in Hf.
    destruct Hf as [<- | [<- | [<- | [<- | [<- | [<- | [<- | []]]]]]]];
      eexists; reflexivity. }
  assert (~ In "colour" EXPECTED_PROPERTIES) as Hnin
    by (cbn; intros H; decompose [or] H; discriminate || assumption).
  destruct (Dino_complete pigeon_record_extra Hall) as (d & Hd & _ & Hk).
  split; [exact Hall |]. split; [reflexivity |]. split.
  - exists d. split; [exact Hd | apply Hk; exact Hnin].
  - intros H. destruct (H pigeon_record_extra Hall) as (d' & Hd' & Hcarry).
    rewrite Hd in Hd'. injection Hd' as <-.
    specialize (Hcarry "colour" Hnin). rewrite (Hk "colour" Hnin) in Hcarry.
    discriminate Hcarry.
Qed.

(** * Further properties of the program *)

(** ** Constructors: what the result depends on, and composition *)

Lemma object_eq (o1 o2 : object) :
  own o1 = own o2 -> inherited o1 = inherited o2 -> o1 = o2.
Proof. destruct o1, o2. cbn. intros -> ->. reflexivity. Qed.

Lemma Human_weight_lookup (properties : object) (k : string) :
  k <> "name" ->
  get (rest_of ["name"] properties) k =
    default VUndefined (own properties !! k).
Proof.
  intros Hk. unfold get. rewrite rest_of_lookup.
  rewrite decide_False by (set_unfold; intuition congruence).
  destruct (own properties !! k); reflexivity.
Qed.

(** X1.  [Animal] reads [weight], [height] and [diet] through the
    prototype chain, [Human] does not: the rest object of its
    destructuring holds own properties only.  A weight that the
    argument merely inherits is kept by [Animal] and is [undefined]
    after [Human]; the name, read before the rest is taken, may be
    inherited. *)
Theorem Human_drops_inherited (properties : object) (v : value) :
  own properties !! "weight" = None ->
  inherited properties !! "weight" = Some v ->
  own (Animal properties) !! "weight" = Some v /\
  own (Human properties) !! "weight" = Some VUndefined /\
  own (Human properties) !! "name" = Some (get properties "name").
Proof.
  intros Hown Hinh. split; [| split].
  - rewrite Animal_lookup. cbn. unfold get. rewrite Hown, Hinh. reflexivity.
  - rewrite Human_lookup, Animal_lookup. cbn.
    rewrite Human_weight_lookup by discriminate. rewrite Hown. reflexivity.
  - rewrite Human_lookup. cbn. reflexivity.
Qed.

Lemma Human_drops_inherited_witness :
  own heir_record !! "weight" = None /\
  inherited heir_record !! "weight" = Some (VNumber 120) /\
  own (Animal heir_record) !! "weight" = Some (VNumber 120) /\
  own (Human heir_record) !! "weight" = Some VUndefined.
Proof.
  split; [reflexivity |]. split; [reflexivity |].
  destruct (Human_drops_inherited heir_record (VNumber 120) eq_refl eq_refl)
    as (Ha & Hh & _).
  split; [exact Ha | exact Hh].
Defined.

(** X2.  [Human] returns an object equal to its argument when the
    argument has exactly the own properties [name], [weight], [height]
    and [diet] and inherits nothing, which is the record [showTiles]
    passes; hence [Human] applied twice is [Human] applied once. *)
Theorem Human_fixed_point (properties : object) :
  (dom (own properties) = ({["name"; "weight"; "height"; "diet"]} : gset string) ->
   inherited properties = ∅ ->
   Human properties = properties) /\
  Human (Human properties) = Human properties.
Proof.
  assert (forall p : object,
            dom (own p) = ({["name"; "weight"; "height"; "diet"]} : gset string) ->
            inherited p = ∅ -> Human p = p) as Hfix.
  { intros p Hdom Hinh. apply object_eq; [| rewrite Hinh; reflexivity].
    apply map_eq. intros k. rewrite Human_lookup, Animal_lookup.
    assert (forall f, f ∈ ({["name"; "weight"; "height"; "diet"]} : gset string) ->
                      is_Some (own p !! f)) as Hsome
      by (intros f Hf; apply elem_of_dom; rewrite Hdom; exact Hf).
    destruct (decide ("name" = k)) as [<- | Hn];
      [apply own_get, Hsome; set_unfold; tauto |].
    destruct (decide ("weight" = k)) as [<- | Hw];
      [apply rest_get; [set_unfold; intuition congruence
                       | apply Hsome; set_unfold; tauto] |].
    destruct (decide ("height" = k)) as [<- | Hh];
      [apply rest_get; [set_unfold; intuition congruence
                       | apply Hsome; set_unfold; tauto] |].
    destruct (decide ("diet" = k)) as [<- | Hd];
      [apply rest_get; [set_unfold; intuition congruence
                       | apply Hsome; set_unfold; tauto] |].
    symmetry. apply not_elem_of_dom. rewrite Hdom.
    set_unfold. intuition congruence. }
  split; [apply Hfix |].
  apply Hfix; [| reflexivity].
  unfold Human, Object_assign, Animal, literal. cbn [own].
  rewrite dom_union_L, dom_singleton_L, !dom_insert_L, dom_empty_L.
  set_solver.
Qed.

Lemma Human_fixed_point_witness : Human ann_record = ann_record.
Proof.
  apply (proj1 (Human_fixed_point ann_record)); [| reflexivity].
  unfold ann_record, literal. cbn [own].
  rewrite !dom_insert_L, dom_empty_L. set_solver.
Defined.

Lemma first_missing_ext (expected : list string) (p q : object) :
  (forall f, In f expected -> own p !! f = own q !! f) ->
  first_missing expected p = first_missing expected q.
Proof.
  induction expected as [| g expected IH]; intros Hagree; [reflexivity |].
  cbn [first_missing]. unfold hasOwnProperty.
  rewrite (Hagree g) by (left; reflexivity).
  rewrite IH; [reflexivity |]. intros f Hf. apply Hagree. right. exact Hf.
Qed.

Lemma Dino_inherited (properties d : object) :
  Dino properties = Ret d -> inherited d = ∅.
Proof.
  unfold Dino. destruct (first_missing _ _); [discriminate |].
  intros [= <-]. reflexivity.
Qed.

Lemma Dino_ret_inv (properties d : object) :
  Dino properties = Ret d ->
  (forall f, In f EXPECTED_PROPERTIES -> is_Some (own properties !! f)) /\
  (forall f, In f EXPECTED_PROPERTIES -> own d !! f = own properties !! f) /\
  (forall k, ~ In k EXPECTED_PROPERTIES -> own d !! k = None).
Proof.
  intros Hd.
  assert (forall f, In f EXPECTED_PROPERTIES -> is_Some (own properties !! f))
    as Hall.
  { apply first_missing_None. unfold Dino in Hd.
    destruct (first_missing _ _); [discriminate Hd | reflexivity]. }
  destruct (Dino_complete properties Hall) as (d' & Hd' & Hf & Hk).
  rewrite Hd in Hd'. injection Hd' as <-. auto.
Qed.

Lemma Dino_result_eq (d1 d2 : object) :
  inherited d1 = ∅ -> inherited d2 = ∅ ->
  (forall f, In f EXPECTED_PROPERTIES -> own d1 !! f = own d2 !! f) ->
  (forall k, ~ In k EXPECTED_PROPERTIES -> own d1 !! k = None) ->
  (forall k, ~ In k EXPECTED_PROPERTIES -> own d2 !! k = None) ->
  d1 = d2.
Proof.
  intros H1 H2 Hf Hk1 Hk2. apply object_eq; [| congruence].
  apply map_eq. intros k.
  destruct (In_dec string_dec k EXPECTED_PROPERTIES) as [Hin | Hnin];
    [apply Hf; exact Hin | rewrite Hk1, Hk2 by exact Hnin; reflexivity].
Qed.

(** X3.  The outcome of [Dino] is determined by the seven required own
    properties of its argument: two arguments that agree on them give
    the same exception or the same object, whatever else they own or
    inherit. *)
Theorem Dino_depends_on_required (p q : object) :
  (forall f, In f EXPECTED_PROPERTIES -> own p !! f = own q !! f) ->
  Dino p = Dino q.
Proof.
  intros Hagree.
  destruct (Dino p) as [dp | e] eqn:Hp.
  - destruct (Dino_ret_inv p dp Hp) as (Hall & Hf & Hk).
    destruct (Dino_complete q) as (dq & Hq & Hfq & Hkq).
    { intros f Hin. rewrite <- Hagree by exact Hin. apply Hall. exact Hin. }
    rewrite Hq. f_equal.
    apply Dino_result_eq;
      [exact (Dino_inherited _ _ Hp) | exact (Dino_inherited _ _ Hq) | | exact Hk | exact Hkq].
    intros f Hin. rewrite Hf, Hfq by exact Hin. apply Hagree. exact Hin.
  - unfold Dino in Hp |- *.
    rewrite <- (first_missing_ext _ p q Hagree).
    destruct (first_missing EXPECTED_PROPERTIES p);
      [symmetry; exact Hp | discriminate Hp].
Qed.

Lemma Dino_depends_on_required_witness :
  Dino pigeon_record_extra = Dino pigeon_record.
Proof.
  apply Dino_depends_on_required.
  intros f Hf. cbn in Hf.
  destruct Hf as [<- | [<- | [<- | [<- | [<- | [<- | [<- | []]]]]]]];
    reflexivity.
Defined.

(** X4.  An object returned by [Dino] passes [Dino] again and comes
    back unchanged. *)
Theorem Dino_idempotent (properties d : object) :
  Dino properties = Ret d -> Dino d = Ret d.
Proof.
  intros Hd. destruct (Dino_ret_inv properties d Hd) as (Hall & Hf & Hk).
  destruct (Dino_complete d) as (d' & Hd' & Hf' & Hk').
  { intros f Hin. rewrite Hf by exact Hin. apply Hall. exact Hin. }
  rewrite Hd'. f_equal.
  apply Dino_result_eq;
    [exact (Dino_inherited _ _ Hd') | exact (Dino_inherited _ _ Hd)
    | exact Hf' | exact Hk' | exact Hk].
Qed.

Lemma Dino_idempotent_witness :
  exists d, Dino pigeon_record = Ret d /\ Dino d = Ret d.
Proof.
  destruct (Dino pigeon_record) as [d | e] eqn:Hd;
    [| vm_compute in Hd; discriminate Hd].
  exists d. split; [reflexivity |].
  exact (Dino_idempotent pigeon_record d Hd).
Defined.

(** X5.  What [Human] or [Animal] returns is never accepted by [Dino]:
    it has no [species], the first property checked, so [Dino] throws
    the error naming [species]. *)
Theorem Dino_rejects_Human (properties : object) :
  Dino (Human properties) =
    Throw (Error "Missing required Dinosaur property: species") /\
  Dino (Animal properties) =
    Throw (Error "Missing required Dinosaur property: species").
Proof.
  split.
  - unfold Dino. cbn [EXPECTED_PROPERTIES first_missing]. unfold hasOwnProperty.
    rewrite bool_decide_eq_false_2; [reflexivity |].
    rewrite Human_lookup, Animal_lookup. cbn. apply is_Some_None.
  - unfold Dino. cbn [EXPECTED_PROPERTIES first_missing]. unfold hasOwnProperty.
    rewrite bool_decide_eq_false_2; [reflexivity |].
    rewrite Animal_lookup. cbn. apply is_Some_None.
Qed.

(** ** The array of dinosaurs *)

Lemma create_dinos_app (Dinos : list object) (dinos : list object) :
  create_dinos Dinos dinos =
    match create_dinos Dinos [] with
    | Ret ds => Ret (dinos ++ ds)%list
    | Throw e => Throw e
    end.
Proof.
  revert dinos. induction Dinos as [| v Dinos IH]; intros dinos;
    cbn [create_dinos].
  - rewrite app_nil_r. reflexivity.
  - destruct (Dino v) as [d | e]; [| reflexivity].
    rewrite (IH (dinos ++ [d])%list), (IH ([] ++ [d])%list).
    destruct (create_dinos Dinos []); [| reflexivity].
    rewrite <- app_assoc. reflexivity.
Qed.

(** X6.  The loop that fills [dinos] returns an array exactly when every
    record holds the seven required own properties; the array then has
    one dinosaur per record, in the order of the records, each the
    result of [Dino] on its record. *)
Theorem create_dinos_spec (Dinos : list object) :
  ((forall v, In v Dinos ->
      forall f, In f EXPECTED_PROPERTIES -> is_Some (own v !! f)) <->
   exists dinos, create_dinos Dinos [] = Ret dinos) /\
  (forall dinos, create_dinos Dinos [] = Ret dinos ->
     Forall2 (fun v d => Dino v = Ret d) Dinos dinos /\
     length dinos = length Dinos).
Proof.
  assert (forall dinos, create_dinos Dinos [] = Ret dinos ->
            Forall2 (fun v d => Dino v = Ret d) Dinos dinos) as Hall2.
  { induction Dinos as [| v Dinos IH]; intros dinos; cbn [create_dinos].
    - intros [= <-]. constructor.
    - destruct (Dino v) as [d | e] eqn:Hv; [| discriminate].
      rewrite create_dinos_app.
      destruct (create_dinos Dinos []) as [ds | e]; [| discriminate].
      intros [= <-]. constructor; [exact Hv | apply IH; reflexivity]. }
  split; [split |].
  - clear Hall2.
    induction Dinos as [| v Dinos IH]; intros Hrec; cbn [create_dinos].
    + eexists. reflexivity.
    + destruct (Dino_complete v) as (d & Hd & _);
        [apply Hrec; left; reflexivity |].
      rewrite Hd, create_dinos_app.
      destruct IH as [ds Hds];
        [intros w Hw; apply Hrec; right; exact Hw |].
      rewrite Hds. eexists. reflexivity.
  - intros [dinos Hdinos] v Hv. apply Hall2 in Hdinos.
    clear Hall2. induction Hdinos as [| w d Dinos ds Hw _ IH]; [destruct Hv |].
    destruct Hv as [<- | Hv]; [| apply IH; exact Hv].
    apply (Dino_ret_inv _ _ Hw).
  - intros dinos Hdinos. pose proof (Hall2 dinos Hdinos) as H2.
    split; [exact H2 |]. symmetry. eapply Forall2_length. exact H2.
Qed.

(** ** Weights and heights that are not numbers *)

Lemma SFeqb_self (x : spec_float) :
  valid_binary x = true -> SFeqb x x = false -> x = S754_nan.
Proof.
  intros Hx.
  destruct x as [s | s | | s m e]; [destruct s; discriminate ..| |];
    [reflexivity |].
  unfold SFeqb.
  rewrite (SFcompare_scaled s s m m e e (Z.min e e) Hx Hx eq_refl).
  rewrite Z.compare_refl. discriminate.
Qed.

Lemma ltb_nan (a b : float) :
  is_nan a = true -> (a <? b)%float = false /\ (b <? a)%float = false.
Proof.
  unfold is_nan. rewrite negb_true_iff, FloatAxioms.eqb_spec.
  rewrite !FloatAxioms.ltb_spec. intros H.
  rewrite (SFeqb_self _ (Prim2SF_valid a) H).
  split; [reflexivity |].
  destruct (Prim2SF b) as [s | s | | s m e]; try destruct s; reflexivity.
Qed.

(** X15.  When the weight of either animal is NaN, as [parseFloat]
    gives for a form field left empty, [compareWeights] answers in both
    directions that the two have the exact same weight; and likewise
    [compareHeights] for a height that is NaN. *)
Theorem compare_not_a_number (show : float -> string) (A B : Animal_t) :
  (is_nan (weight A) = true ->
     compareWeights show A B = "We have the exact same weight!" /\
     compareWeights show B A = "We have the exact same weight!") /\
  (is_nan (height A) = true ->
     compareHeights show A B = "We have the exact same height!" /\
     compareHeights show B A = "We have the exact same height!").
Proof.
  split; intros H; destruct (ltb_nan _ (weight B) H) as [W1 W2];
    destruct (ltb_nan _ (height B) H) as [H1 H2].
  - split; apply compareWeights_same; assumption.
  - split; apply compareHeights_same; assumption.
Qed.

Lemma compare_not_a_number_witness :
  is_nan (weight unmeasured) = true /\
  compareWeights Number_toString_int unmeasured trex =
    "We have the exact same weight!" /\
  compareWeights Number_toString_int trex unmeasured =
    "We have the exact same weight!" /\
  is_nan (height unmeasured) = true /\
  compareHeights Number_toString_int trex unmeasured =
    "We have the exact same height!".
Proof.
  destruct (compare_not_a_number Number_toString_int unmeasured trex)
    as [Hw Hh].
  split; [reflexivity |].
  split; [exact (proj1 (Hw eq_refl)) |].
  split; [exact (proj2 (Hw eq_refl)) |].
  split; [reflexivity | exact (proj2 (Hh eq_refl))].
Defined.

(** ** Diet, message by message *)

(** X10.  Each message of [compareDiet], called on [A] with argument
    [B], is produced under exactly one condition on the two diets.  A
    carnivore facing a herbivore asks the meat question, not the
    appetite one, because the herbivore tests come first.  The
    same-food message means that the two agree on being a herbivore
    and on being a carnivore: among herbivore, carnivore and omnivore
    this is having the same diet, but any two diets that are neither
    herbivore nor carnivore count as the same food. *)
Theorem compareDiet_exact (A B : Animal_t) :
  (compareDiet A B = "Really, you don't eat meat ?" <->
   diet A <> "herbivore" /\ diet B = "herbivore") /\
  (compareDiet A B = "I think you shouldn't eat meat, you know." <->
   diet A = "herbivore" /\ diet B <> "herbivore") /\
  (compareDiet A B = "I think you should try some vegetables, you know !" <->
   diet A <> "herbivore" /\ diet A <> "carnivore" /\ diet B = "carnivore") /\
  (compareDiet A B = "Why do you waste your appetite on vegetables ?" <->
   diet A = "carnivore" /\ diet B <> "carnivore" /\ diet B <> "herbivore") /\
  (compareDiet A B = "We like the same food !" <->
   (diet A = "herbivore" <-> diet B = "herbivore") /\
   (diet A = "carnivore" <-> diet B = "carnivore")) /\
  (In (diet A) ["herbivore"; "carnivore"; "omnivore"] ->
   In (diet B) ["herbivore"; "carnivore"; "omnivore"] ->
   (compareDiet A B = "We like the same food !" <-> diet A = diet B)) /\
  (~ In (diet A) ["herbivore"; "carnivore"] ->
   ~ In (diet B) ["herbivore"; "carnivore"] ->
   compareDiet A B = "We like the same food !").
Proof.
  unfold compareDiet.
  destruct (String.eqb_spec (diet A) "herbivore") as [Hah | Hah],
           (String.eqb_spec (diet B) "herbivore") as [Hbh | Hbh],
           (String.eqb_spec (diet A) "carnivore") as [Hac | Hac],
           (String.eqb_spec (diet B) "carnivore") as [Hbc | Hbc];
    cbn [negb andb In];
    try (exfalso; congruence);
    intuition (first [discriminate | congruence]).
Qed.

Lemma compareDiet_exact_witness :
  compareDiet trex pigeon = "Really, you don't eat meat ?" /\
  (compareDiet ann trex = "We like the same food !" <->
   diet ann = diet trex).
Proof.
  destruct (compareDiet_exact trex pigeon) as (H1 & _).
  destruct (compareDiet_exact ann trex) as (_ & _ & _ & _ & _ & H6 & _).
  split.
  - apply H1. split; [discriminate | reflexivity].
  - apply H6; cbn; tauto.
Defined.

(** ** The grid: when it is complete *)

(** X11.  [addTiles] returns exactly when the array holds at least eight
    dinosaurs; with fewer it ends in the [TypeError] of reading
    [species] of [undefined], and with none it ends so before touching
    the grid or drawing a number.  The random numbers play no part in
    this. *)
Theorem addTiles_returns_iff show random (dinos : list Dino_t) human s :
  (fst (addTiles show random dinos human s) = Ret tt <->
   (8 <= length dinos)%nat) /\
  ((length dinos < 8)%nat ->
   fst (addTiles show random dinos human s) = Throw TypeError) /\
  addTiles show random [] human s = (Throw TypeError, s).
Proof.
  destruct (addTiles_outcome show random dinos human s)
    as (o & s' & E & _ & Hret & Hthrow).
  rewrite E. cbn [fst].
  split; [split |]; [| exact Hret | split; [exact Hthrow | reflexivity]].
  intros Ho. destruct (Nat.lt_ge_cases (length dinos) 8) as [Hlt | Hge];
    [| exact Hge].
  rewrite (Hthrow Hlt) in Ho. discriminate Ho.
Qed.

Lemma addTiles_returns_iff_witness :
  (length [trex; pigeon] < 8)%nat /\
  fst (addTiles Number_toString_int (fun _ => 0%Q) [trex; pigeon] ann
         (State "" 0)) = Throw TypeError.
Proof.
  assert (length [trex; pigeon] < 8)%nat as Hlt by (cbn; lia).
  split; [exact Hlt |].
  exact (proj1 (proj2 (addTiles_returns_iff Number_toString_int
                         (fun _ => 0%Q) [trex; pigeon] ann (State "" 0)))
           Hlt).
Defined.

(** X12.  Whether it returns or throws, [addTiles] only appends to the
    markup of the grid, never replacing what was there, and calls
    [Math.random] at most eight times. *)
Theorem addTiles_only_appends show random (dinos : list Dino_t) human s :
  (exists added,
     grid_innerHTML (snd (addTiles show random dinos human s)) =
     grid_innerHTML s +:+ added) /\
  (random_calls s <= random_calls (snd (addTiles show random dinos human s))
   <= random_calls s + 8)%nat.
Proof.
  destruct (addTiles_outcome show random dinos human s)
    as (o & s' & E & Hext & _).
  rewrite E. exact Hext.
Qed.

Lemma bind_ext {A B} (c1 c2 : M A) (k1 k2 : A -> M B) (s : state) :
  c1 s = c2 s -> (forall a s', k1 a s' = k2 a s') ->
  bind c1 k1 s = bind c2 k2 s.
Proof.
  intros Hc Hk. unfold bind. rewrite Hc.
  destruct (c2 s) as [[a | e] s']; [apply Hk | reflexivity].
Qed.

Lemma for_ext (b1 b2 : nat -> M unit) (count from : nat) :
  (forall i s, (from <= i < from + count)%nat -> b1 i s = b2 i s) ->
  forall s, for_ from count b1 s = for_ from count b2 s.
Proof.
  revert from. induction count as [| count IH]; intros from Hb s;
    [reflexivity |].
  cbn [for_]. unfold bind. rewrite Hb by lia.
  destruct (b2 from s) as [[[] | e] s1]; [| reflexivity].
  apply IH. intros i s2 Hi. apply Hb. lia.
Qed.

(** X13.  [addTiles] reads the first eight entries of the array only:
    two arrays that agree on indices 0 to 7 give the same result, so
    dinosaurs after the eighth are never shown. *)
Theorem addTiles_first_eight show random (dinos1 dinos2 : list Dino_t)
    human s :
  (forall i, (i < 8)%nat -> dinos1 !! i = dinos2 !! i) ->
  addTiles show random dinos1 human s = addTiles show random dinos2 human s.
Proof.
  intros Hagree. unfold addTiles.
  assert (forall from s,
            (from + 4 <= 8)%nat ->
            for_ from 4 (fun i =>
               let! tile := getTileHTML show random human [dinos1 !! i]
               in append_innerHTML tile) s =
            for_ from 4 (fun i =>
               let! tile := getTileHTML show random human [dinos2 !! i]
               in append_innerHTML tile) s) as Hloop.
  { intros from s0 Hfrom. apply for_ext. intros i s1 Hi.
    rewrite Hagree by lia. reflexivity. }
  apply bind_ext; [apply Hloop; lia | intros _ s1].
  apply bind_ext; [reflexivity | intros tile s2].
  apply bind_ext; [reflexivity | intros _ s3].
  apply Hloop. lia.
Qed.

Lemma addTiles_first_eight_witness :
  addTiles Number_toString_int (fun _ => 1 # 2) (eight_dinos ++ [trex]) ann
    (State "" 0) =
  addTiles Number_toString_int (fun _ => 1 # 2) eight_dinos ann (State "" 0).
Proof.
  apply addTiles_first_eight.
  intros i Hi.
  do 8 (destruct i as [| i]; [reflexivity |]). lia.
Defined.

(** X14.  [Animal] applied to what it returned gives the same object
    again, and [Human] keeps what [Animal] returned apart from adding
    an [undefined] name. *)
Theorem Animal_idempotent (properties : object) :
  Animal (Animal properties) = Animal properties /\
  Human (Animal properties) =
    Object_assign (Animal properties) (literal {["name" := VUndefined]}).
Proof.
  split.
  - apply object_eq; [| reflexivity].
    apply map_eq. intros k. rewrite !Animal_lookup.
    repeat case_decide; subst; try reflexivity;
      f_equal; unfold get; rewrite Animal_lookup; reflexivity.
  - apply object_eq; [| reflexivity].
    apply map_eq. intros k. rewrite Human_lookup.
    unfold Object_assign, literal. cbn [own].
    rewrite lookup_union, lookup_singleton, !Animal_lookup.
    destruct (decide ("name" = k)) as [<- | Hn]; [reflexivity |].
    repeat case_decide; subst; try reflexivity;
      cbn; f_equal; unfold get; rewrite rest_of_lookup, Animal_lookup;
      reflexivity.
Qed.
